(** * Control / transform geometry of fabric.js: [src/controls/util.ts]

    A shallow embedding of the control utilities ([getActionFromCorner],
    [isTransformCentered], [invertOrigin], [isLocked], [commonEventInfo],
    [findCornerQuadrant], [normalizePoint], [getLocalPoint]) together with
    the collaborators they call.

    Numbers.  A JavaScript [number] is read as a real number ([R]): the
    arithmetic of the source is the exact arithmetic of the reals, [NaN] and
    the infinities are left out, and rounding of the binary64 format is not
    part of the model.  Comparisons are the decidable comparisons of [R]. *)

From Stdlib Require Import Reals Lra Lia ZArith Ascii String.
From stdpp Require Import gmap strings.

Local Open Scope R_scope.

(** ** JavaScript arithmetic on real numbers *)

Module JS.

(** Greatest integer below or equal to [r] ([Math.floor]). *)
Definition floor (r : R) : Z := (up r - 1)%Z.

(** Least integer above or equal to [r] ([Math.ceil]). *)
Definition ceil (r : R) : Z := (- floor (- r))%Z.

(** Integer part, rounding toward zero ([Math.trunc]). *)
Definition trunc (r : R) : Z :=
  if Rle_dec 0 r then floor r else ceil r.

(** [Math.round]: the nearest integer, halves rounded toward +infinity. *)
Definition round (r : R) : Z := floor (r + / 2).

(** The remainder operator [a % b]: [a - b * trunc (a / b)], which has
    the sign of the dividend. *)
Definition rem (a b : R) : R := a - b * IZR (trunc (a / b)).

(** Truthiness of a number: every number but zero. *)
Definition truthy (r : R) : bool := if Req_dec_T r 0 then false else true.

(** [a || b] on numbers. *)
Definition or_else (a b : R) : R := if truthy a then a else b.

(** [Math.atan2 (y, x)]: the angle of the vector [(x, y)], in
    [(-PI, PI]], and [0] for the null vector. *)
Definition atan2 (y x : R) : R :=
  if Rlt_dec 0 x then atan (y / x)
  else if Rlt_dec x 0 then
    (if Rle_dec 0 y then atan (y / x) + PI else atan (y / x) - PI)
  else if Rlt_dec 0 y then PI / 2
  else if Rlt_dec y 0 then - (PI / 2)
  else 0.

End JS.

(** ** Points *)

Module Point.

Record t : Type := mk { x : R; y : R }.

(** Modelled from the spec: the class [Point] ([src/Point.ts]) is not
    among the sources.  [new Point ()] is the null vector. *)
Definition zero : t := mk 0 0.

(** Modelled from the spec: [Point.add], a new instance. *)
Definition add (p q : t) : t := mk (x p + x q) (y p + y q).

(** Modelled from the spec: [Point.subtract], a new instance. *)
Definition subtract (p q : t) : t := mk (x p - x q) (y p - y q).

(** Modelled from the spec: [Point.eq], equality of both coordinates. *)
Definition eq (p q : t) : bool :=
  if Req_dec_T (x p) (x q)
  then (if Req_dec_T (y p) (y q) then true else false)
  else false.

(** Modelled from the spec: [Point.rotate (radians, origin)], the point
    rotated by [radians] around the pivot [origin]. *)
Definition rotate (p : t) (radians : R) (origin : t) : t :=
  let dx := x p - x origin in
  let dy := y p - y origin in
  mk (dx * cos radians - dy * sin radians + x origin)
     (dx * sin radians + dy * cos radians + y origin).

Definition set_x (p : t) (v : R) : t := mk v (y p).
Definition set_y (p : t) (v : R) : t := mk (x p) v.

End Point.

Abbreviation Point := Point.t.

(** ** Origins *)

(** [TOriginX | TOriginY]: the symbolic anchors of the two axes, or a
    number. *)
Inductive TOrigin : Type :=
| OLeft | OTop | OCenter | OBottom | ORight
| ONumber (v : R).

Definition TOriginX := TOrigin.
Definition TOriginY := TOrigin.

(** The origins on an edge of the box. *)
Definition edge (o : TOrigin) : Prop :=
  match o with
  | OLeft | OTop | OBottom | ORight => True
  | OCenter | ONumber _ => False
  end.

(** Modelled from the spec: [resolveOrigin] ([src/util/misc/resolveOrigin.ts])
    is not among the sources.  Start (left, top) is [-0.5], center is [0],
    end (right, bottom) is [0.5]; a number passes through unchanged. *)
Definition resolveOrigin (origin : TOrigin) : R :=
  match origin with
  | OLeft | OTop => - (1 / 2)
  | OCenter => 0
  | OBottom | ORight => 1 / 2
  | ONumber v => v
  end.

(** Modelled from the spec: [resolveOriginPoint], the point of the two
    resolved offsets. *)
Definition resolveOriginPoint (originX : TOriginX) (originY : TOriginY)
  : Point :=
  Point.mk (resolveOrigin originX) (resolveOrigin originY).

(** [isTransformCentered ({originX, originY})] (lines 42-50). *)
Definition isTransformCentered (originX : TOriginX) (originY : TOriginY)
  : bool :=
  Point.eq (resolveOriginPoint originX originY) Point.zero.

(** [invertOrigin (origin)] (lines 52-54). *)
Definition invertOrigin (origin : TOrigin) : R :=
  - resolveOrigin origin + 1 / 2.

(** ** Transform matrices *)

Module Mat.

(** [TMat2D = [a, b, c, d, e, f]], the affine map
    [(x, y) |-> (a x + c y + e, b x + d y + f)]. *)
Record t : Type := mk { a : R; b : R; c : R; d : R; e : R; f : R }.

Definition iMatrix : t := mk 1 0 0 1 0 0.

(** Modelled from the spec: [multiplyTransformMatrices (m, n)], the map
    [n] followed by the map [m]. *)
Definition multiply (m n : t) : t :=
  mk (a m * a n + c m * b n) (b m * a n + d m * b n)
     (a m * c n + c m * d n) (b m * c n + d m * d n)
     (a m * e n + c m * f n + e m) (b m * e n + d m * f n + f m).

(** Modelled from the spec: [Point.transform (m)]. *)
Definition transformPoint (m : t) (p : Point) : Point :=
  Point.mk (a m * Point.x p + c m * Point.y p + e m)
           (b m * Point.x p + d m * Point.y p + f m).

(** Modelled from the spec: the linear part of a matrix applied to a
    vector ([Point.transform (m, true)], the offset left out). *)
Definition linear (m : t) (p : Point) : Point :=
  Point.mk (a m * Point.x p + c m * Point.y p)
           (b m * Point.x p + d m * Point.y p).

(** Modelled from the spec: [invertTransform (m)], the inverse map: the
    inverse of the linear part by the determinant, and the offset that
    sends the image of the origin back to the origin. *)
Definition invert (m : t) : t :=
  let k := 1 / (a m * d m - b m * c m) in
  let r := mk (k * d m) (- k * b m) (- k * c m) (k * a m) 0 0 in
  let o := linear r (Point.mk (e m) (f m)) in
  mk (a r) (b r) (c r) (d r) (- Point.x o) (- Point.y o).


(** Modelled from the spec: the matrix of one object, its scale, then its
    rotation, then its translation. *)
Definition compose (tx ty angle sx sy : R) : t :=
  mk (cos angle * sx) (sin angle * sx)
     (- sin angle * sy) (cos angle * sy)
     tx ty.

End Mat.

Abbreviation TMat2D := Mat.t.

(** ** Controls, canvas and objects *)

Module Control.

(** A control: its position in the unit square of the object box, its
    pixel offset, and its action-name resolver.  The resolver is a
    JavaScript closure; it is kept as a value of an abstract type [Res],
    applied through [ActionNameCall] below. *)
Record t (Res : Type) : Type :=
  mk { x : R; y : R; offsetX : R; offsetY : R; getActionName : Res }.

Arguments mk {Res}.
Arguments x {Res}.
Arguments y {Res}.
Arguments offsetX {Res}.
Arguments offsetY {Res}.
Arguments getActionName {Res}.

End Control.

Abbreviation Control := Control.t.

Module Canvas.

(** Modelled from the spec: the canvas gives its current zoom factor. *)
Record t : Type := mk { getZoom : R }.

End Canvas.

Module FabricObject.

(** The geometric attributes of an object, its locks, its parent group
    (itself an object), its controls keyed by corner, and its canvas. *)
#[local] Unset Elimination Schemes.
Inductive t (Res : Type) : Type :=
  mk { left : R; top : R;
       width : R; height : R;
       scaleX : R; scaleY : R;
       angle : R;
       skewX : R; skewY : R;
       padding : R;
       lockMovementX : bool; lockMovementY : bool;
       lockRotation : bool;
       lockScalingX : bool; lockScalingY : bool;
       lockSkewingX : bool; lockSkewingY : bool;
       lockScalingFlip : bool;
       group : option (t Res);
       controls : gmap string (Control Res);
       canvas : option Canvas.t }.
#[local] Set Elimination Schemes.

Arguments mk {Res}.
Arguments left {Res}.
Arguments top {Res}.
Arguments width {Res}.
Arguments height {Res}.
Arguments scaleX {Res}.
Arguments scaleY {Res}.
Arguments angle {Res}.
Arguments skewX {Res}.
Arguments skewY {Res}.
Arguments padding {Res}.
Arguments lockMovementX {Res}.
Arguments lockMovementY {Res}.
Arguments lockRotation {Res}.
Arguments lockScalingX {Res}.
Arguments lockScalingY {Res}.
Arguments lockSkewingX {Res}.
Arguments lockSkewingY {Res}.
Arguments lockScalingFlip {Res}.
Arguments group {Res}.
Arguments controls {Res}.
Arguments canvas {Res}.

Section Updates.

Context {Res : Type}.

(** [o.left = l; o.top = t]. *)
Definition set_position (l t_ : R) (o : t Res) : t Res :=
  mk l t_ (width o) (height o) (scaleX o) (scaleY o) (angle o)
     (skewX o) (skewY o) (padding o)
     (lockMovementX o) (lockMovementY o) (lockRotation o)
     (lockScalingX o) (lockScalingY o) (lockSkewingX o) (lockSkewingY o)
     (lockScalingFlip o) (group o) (controls o) (canvas o).

(** [o.angle = a]. *)
Definition set_angle (a : R) (o : t Res) : t Res :=
  mk (left o) (top o) (width o) (height o) (scaleX o) (scaleY o) a
     (skewX o) (skewY o) (padding o)
     (lockMovementX o) (lockMovementY o) (lockRotation o)
     (lockScalingX o) (lockScalingY o) (lockSkewingX o) (lockSkewingY o)
     (lockScalingFlip o) (group o) (controls o) (canvas o).

(** [o.group = g]. *)
Definition set_group (g : option (t Res)) (o : t Res) : t Res :=
  mk (left o) (top o) (width o) (height o) (scaleX o) (scaleY o) (angle o)
     (skewX o) (skewY o) (padding o)
     (lockMovementX o) (lockMovementY o) (lockRotation o)
     (lockScalingX o) (lockScalingY o) (lockSkewingX o) (lockSkewingY o)
     (lockScalingFlip o) g (controls o) (canvas o).

(** [o.padding = p]. *)
Definition set_padding (p : R) (o : t Res) : t Res :=
  mk (left o) (top o) (width o) (height o) (scaleX o) (scaleY o) (angle o)
     (skewX o) (skewY o) p
     (lockMovementX o) (lockMovementY o) (lockRotation o)
     (lockScalingX o) (lockScalingY o) (lockSkewingX o) (lockSkewingY o)
     (lockScalingFlip o) (group o) (controls o) (canvas o).

(** [o.canvas = c]. *)
Definition set_canvas (c : option Canvas.t) (o : t Res) : t Res :=
  mk (left o) (top o) (width o) (height o) (scaleX o) (scaleY o) (angle o)
     (skewX o) (skewY o) (padding o)
     (lockMovementX o) (lockMovementY o) (lockRotation o)
     (lockScalingX o) (lockScalingY o) (lockSkewingX o) (lockSkewingY o)
     (lockScalingFlip o) (group o) (controls o) c.

End Updates.

End FabricObject.

Abbreviation FabricObject := FabricObject.t.

(** The interface of an action-name resolver: how the closure stored in a
    control answers [getActionName (e, control, target)]. *)
Class ActionNameCall (Ev Res : Type) : Type :=
  callActionName : Res -> Ev -> Control Res -> FabricObject Res -> string.

(** The result of a call: a value, or a [TypeError] thrown on reading a
    property of [undefined]. *)
Inductive outcome (A : Type) : Type :=
| Returns (v : A)
| Throws.

Arguments Returns {A}.
Arguments Throws {A}.

Module Transform.

(** The transform context of a gesture: the target, the active corner,
    the resolved action and the anchor origin. *)
Record t (Res : Type) : Type :=
  mk { target : FabricObject Res;
       corner : string;
       action : string;
       originX : TOriginX;
       originY : TOriginY }.

Arguments mk {Res}.
Arguments target {Res}.
Arguments corner {Res}.
Arguments action {Res}.
Arguments originX {Res}.
Arguments originY {Res}.

End Transform.

Abbreviation Transform := Transform.t.

(** The keys accepted by [isLocked]. *)
Inductive LockingKey : Type :=
| LockMovementX | LockMovementY | LockRotation
| LockScalingX | LockScalingY
| LockSkewingX | LockSkewingY | LockScalingFlip.

Module BasicTransformEvent.

(** The payload built by [commonEventInfo]. *)
Record t (Ev Res : Type) : Type :=
  mk { e : Ev; transform : Transform Res; pointer : Point }.

Arguments mk {Ev Res}.
Arguments e {Ev Res}.
Arguments transform {Ev Res}.
Arguments pointer {Ev Res}.

End BasicTransformEvent.

Abbreviation BasicTransformEvent := BasicTransformEvent.t.

(** Modelled from the spec: the constants [twoMathPi] and [PIBy4] of
    [src/constants.ts] are not among the sources; they are a full turn and
    an eighth of a turn (45 degrees), in radians. *)
Definition twoMathPi : R := 2 * PI.
Definition PIBy4 : R := PI / 4.

Definition NOT_ALLOWED_CURSOR : string := "not-allowed".

(** ** Geometry of an object *)

Section Geometry.

Context {Res : Type}.

Implicit Types (target o : FabricObject Res) (control : Control Res).

(** Modelled from the spec: [getTotalAngle], the sum of the angle of the
    object and of the angles of all its ancestor groups. *)
Fixpoint getTotalAngle o : R :=
  FabricObject.angle o +
  match FabricObject.group o with
  | Some g => getTotalAngle g
  | None => 0
  end.

(** Modelled from the spec: the own matrix of an object, its translation,
    rotation and scale. *)
Definition calcOwnMatrix o : TMat2D :=
  Mat.compose (FabricObject.left o) (FabricObject.top o)
              (FabricObject.angle o)
              (FabricObject.scaleX o) (FabricObject.scaleY o).

(** Modelled from the spec: [calcTransformMatrix], the own matrix
    composed with the matrices of all ancestor groups, closest first. *)
Fixpoint calcTransformMatrix o : TMat2D :=
  match FabricObject.group o with
  | Some g => Mat.multiply (calcTransformMatrix g) (calcOwnMatrix o)
  | None => calcOwnMatrix o
  end.

(** Modelled from the spec: [getRelativeCenterPoint], the center of the
    object in the plane of its parent; the position of an object is the
    position of its center. *)
Definition getRelativeCenterPoint o : Point :=
  Point.mk (FabricObject.left o) (FabricObject.top o).

(** Modelled from the spec: [getXY (originX, originY)], the position of
    the requested origin of the object box, in unrotated axes. *)
Definition getXY o (originX : TOriginX) (originY : TOriginY) : Point :=
  Point.add (getRelativeCenterPoint o)
    (Point.mk
       (resolveOrigin originX
        * (FabricObject.width o * FabricObject.scaleX o))
       (resolveOrigin originY
        * (FabricObject.height o * FabricObject.scaleY o))).

(** Modelled from the spec: [sendPointToPlane (point, from, to)] of
    [src/util/misc/planeChange.ts] moves a point between the plane of a
    nested group and the world plane: the point leaves the plane [from]
    through the matrix of that plane and enters the plane [to] through the
    inverse of the matrix of that plane; an absent matrix is the identity,
    the plane of the canvas. *)
Definition sendPointToPlane (point : Point) (from to : option TMat2D)
  : Point :=
  Mat.transformPoint
    (Mat.multiply (Mat.invert (default Mat.iMatrix to))
       (default Mat.iMatrix from)) point.

(** Modelled from the spec: [bbox.vectorFromOrigin (point)], the vector
    from the rotation origin of the object to a position of the unit
    square of its box, in the rotated frame of the object. *)
Definition vectorFromOrigin o (point : Point) : Point :=
  Point.rotate
    (Point.mk
       (Point.x point * (FabricObject.width o * FabricObject.scaleX o))
       (Point.y point * (FabricObject.height o * FabricObject.scaleY o)))
    (getTotalAngle o) Point.zero.

(** Modelled from the spec: [calcVectorRotation], the angle of a
    vector. *)
Definition calcVectorRotation (v : Point) : R :=
  JS.atan2 (Point.y v) (Point.x v).

(** [new Point (control)]. *)
Definition pointOfControl control : Point :=
  Point.mk (Control.x control) (Control.y control).

End Geometry.

(** ** The control utilities of [src/controls/util.ts] *)

Section Util.

Context {Ev Res : Type} `{!ActionNameCall Ev Res}.

Implicit Types (target : FabricObject Res) (control : Control Res).

(** [getActionFromCorner] (lines 24-35).  [!corner] holds of the empty
    string; [target.controls[corner]] is [undefined] when the corner names
    no control, and the call of its resolver then throws. *)
Definition getActionFromCorner (alreadySelected : bool) (corner : string)
    (e : Ev) target : outcome string :=
  if orb (String.eqb corner "") (negb alreadySelected)
  then Returns "drag"%string
  else
    match FabricObject.controls target !! corner with
    | Some control =>
        Returns (callActionName (Control.getActionName control)
                   e control target)
    | None => Throws
    end.

(** [isLocked] (lines 56-67): [target[lockingKey]]. *)
Definition isLocked target (lockingKey : LockingKey) : bool :=
  match lockingKey with
  | LockMovementX => FabricObject.lockMovementX target
  | LockMovementY => FabricObject.lockMovementY target
  | LockRotation => FabricObject.lockRotation target
  | LockScalingX => FabricObject.lockScalingX target
  | LockScalingY => FabricObject.lockScalingY target
  | LockSkewingX => FabricObject.lockSkewingX target
  | LockSkewingY => FabricObject.lockSkewingY target
  | LockScalingFlip => FabricObject.lockScalingFlip target
  end.

(** [commonEventInfo] (lines 69-78). *)
Definition commonEventInfo (eventData : Ev) (transform : Transform Res)
    (x y : R) : BasicTransformEvent Ev Res :=
  BasicTransformEvent.mk eventData transform (Point.mk x y).

(** [findCornerQuadrant] (lines 87-95). *)
Definition findCornerQuadrant (fabricObject : FabricObject Res) control
  : Z :=
  let rotation :=
    calcVectorRotation
      (vectorFromOrigin fabricObject (pointOfControl control)) in
  JS.round (JS.rem (rotation + twoMathPi) twoMathPi / PIBy4).

(** [normalizePoint] (lines 100-116): the anchor is sent to the plane of
    the group, the point is turned back around the center when the total
    angle is not zero, and the anchor is subtracted. *)
Definition normalizePoint target (point : Point)
    (originX : TOriginX) (originY : TOriginY) : Point :=
  let angle := getTotalAngle target in
  let p :=
    sendPointToPlane (getXY target originX originY) None
      (calcTransformMatrix <$> FabricObject.group target) in
  let p2 :=
    if JS.truthy angle
    then Point.rotate point (- angle) (getRelativeCenterPoint target)
    else point in
  Point.subtract p2 p.

(** The zoom read by [getLocalPoint]: [target.canvas?.getZoom() || 1]. *)
Definition zoomOf target : R :=
  match FabricObject.canvas target with
  | Some cv => JS.or_else (Canvas.getZoom cv) 1
  | None => 1
  end.

(** [getLocalPoint] (lines 127-153): the local variable [localPoint] is
    threaded through the four conditional updates; the reads of
    [control.offsetX] and [control.offsetY] throw when the corner names no
    control. *)
Definition getLocalPoint (tr : Transform Res)
    (originX : TOriginX) (originY : TOriginY) (x y : R) : outcome Point :=
  let target := Transform.target tr in
  let control := FabricObject.controls target !! Transform.corner tr in
  let zoom := zoomOf target in
  let padding := FabricObject.padding target / zoom in
  let localPoint := normalizePoint target (Point.mk x y) originX originY in
  let localPoint :=
    if Rge_dec (Point.x localPoint) padding
    then Point.set_x localPoint (Point.x localPoint - padding)
    else localPoint in
  let localPoint :=
    if Rle_dec (Point.x localPoint) (- padding)
    then Point.set_x localPoint (Point.x localPoint + padding)
    else localPoint in
  let localPoint :=
    if Rge_dec (Point.y localPoint) padding
    then Point.set_y localPoint (Point.y localPoint - padding)
    else localPoint in
  let localPoint :=
    if Rle_dec (Point.y localPoint) padding
    then Point.set_y localPoint (Point.y localPoint + padding)
    else localPoint in
  match control with
  | Some control =>
      let localPoint :=
        Point.set_x localPoint (Point.x localPoint - Control.offsetX control) in
      let localPoint :=
        Point.set_y localPoint (Point.y localPoint - Control.offsetY control) in
      Returns localPoint
  | None => Throws
  end.

End Util.

(** ** The store: objects and points held by reference

    The functions above pass values.  In the source a [Point] and a
    [FabricObject] are held by reference, and [getLocalPoint] assigns to the
    fields of [localPoint].  The functions below run the same statements
    over a store of objects and points, so that what a call writes can be
    told from what it leaves alone. *)

Module Store.

Record heap (Res : Type) : Type :=
  mkHeap { objects : gmap positive (FabricObject Res);
           points : gmap positive Point }.

Arguments mkHeap {Res}.
Arguments objects {Res}.
Arguments points {Res}.

(** A computation: from a store to an outcome and a store. *)
Definition M (Res A : Type) : Type := heap Res -> outcome A * heap Res.

Definition ret {Res A : Type} (a : A) : M Res A := fun h => (Returns a, h).

Definition throw {Res A : Type} : M Res A := fun h => (Throws, h).

Definition bind {Res A B : Type} (m : M Res A) (k : A -> M Res B)
  : M Res B :=
  fun h =>
    match m h with
    | (Returns a, h') => k a h'
    | (Throws, h') => (Throws, h')
    end.

Notation "x <- m ;; k" := (bind m (fun x => k))
  (at level 100, m at next level, right associativity).
Notation "m ;; k" := (bind m (fun _ => k))
  (at level 100, right associativity).

(** The transform context: the target is a reference. *)
Record Transform : Type :=
  mkTransform { target : positive; corner : string }.

Module BasicTransformEvent.

(** The payload of [commonEventInfo]: the pointer is a reference. *)
Record t (Ev : Type) : Type :=
  mk { e : Ev; transform : Transform; pointer : positive }.

Arguments mk {Ev}.
Arguments e {Ev}.
Arguments transform {Ev}.
Arguments pointer {Ev}.

End BasicTransformEvent.

Section Run.

Context {Ev Res : Type} `{!ActionNameCall Ev Res}.

Local Abbreviation M := (M Res).

(** *** Reads and writes *)

(** [new Point (x, y)]: a point at an address the store does not use. *)
Definition newPoint (p : Point) : M positive :=
  fun h =>
    let l := fresh (dom (points h)) in
    (Returns l, mkHeap (objects h) (<[l := p]> (points h))).

Definition getPoint (l : positive) : M Point :=
  fun h =>
    match points h !! l with
    | Some p => (Returns p, h)
    | None => (Throws, h)
    end.

(** [l.x = v] and [l.y = v]. *)
Definition setX (l : positive) (v : R) : M unit :=
  fun h =>
    match points h !! l with
    | Some p =>
        (Returns tt, mkHeap (objects h) (<[l := Point.set_x p v]> (points h)))
    | None => (Throws, h)
    end.

Definition setY (l : positive) (v : R) : M unit :=
  fun h =>
    match points h !! l with
    | Some p =>
        (Returns tt, mkHeap (objects h) (<[l := Point.set_y p v]> (points h)))
    | None => (Throws, h)
    end.

Definition getX (l : positive) : M R :=
  p <- getPoint l ;; ret (Point.x p).

Definition getY (l : positive) : M R :=
  p <- getPoint l ;; ret (Point.y p).

(** The attributes of the object behind a reference. *)
Definition getObject (t : positive) : M (FabricObject Res) :=
  fun h =>
    match objects h !! t with
    | Some o => (Returns o, h)
    | None => (Throws, h)
    end.

(** *** Methods of points and objects; each result is a new point *)

Definition rotate (p : positive) (radians : R) (origin : positive)
  : M positive :=
  a <- getPoint p ;; c <- getPoint origin ;;
  newPoint (Point.rotate a radians c).

Definition subtract (p q : positive) : M positive :=
  a <- getPoint p ;; b <- getPoint q ;; newPoint (Point.subtract a b).

Definition getTotalAngle (t : positive) : M R :=
  o <- getObject t ;; ret (getTotalAngle o).

Definition getXY (t : positive) (originX : TOriginX) (originY : TOriginY)
  : M positive :=
  o <- getObject t ;; newPoint (getXY o originX originY).

Definition getRelativeCenterPoint (t : positive) : M positive :=
  o <- getObject t ;; newPoint (getRelativeCenterPoint o).

(** [target.group?.calcTransformMatrix ()]. *)
Definition groupTransformMatrix (t : positive) : M (option TMat2D) :=
  o <- getObject t ;; ret (calcTransformMatrix <$> FabricObject.group o).

Definition sendPointToPlane (p : positive) (from to : option TMat2D)
  : M positive :=
  a <- getPoint p ;; newPoint (sendPointToPlane a from to).

Definition vectorFromOrigin (t p : positive) : M positive :=
  o <- getObject t ;; a <- getPoint p ;; newPoint (vectorFromOrigin o a).

Definition calcVectorRotation (v : positive) : M R :=
  a <- getPoint v ;; ret (calcVectorRotation a).

(** *** The control utilities *)

Definition getActionFromCorner (alreadySelected : bool) (corner : string)
    (e : Ev) (target : positive) : M string :=
  if orb (String.eqb corner "") (negb alreadySelected)
  then ret "drag"%string
  else
    o <- getObject target ;;
    match FabricObject.controls o !! corner with
    | Some control =>
        ret (callActionName (Control.getActionName control) e control o)
    | None => throw
    end.

Definition isLocked (target : positive) (lockingKey : LockingKey)
  : M bool :=
  o <- getObject target ;; ret (isLocked o lockingKey).

Definition commonEventInfo (eventData : Ev) (transform : Transform)
    (x y : R) : M (BasicTransformEvent.t Ev) :=
  pointer <- newPoint (Point.mk x y) ;;
  ret (BasicTransformEvent.mk eventData transform pointer).

Definition findCornerQuadrant (fabricObject : positive)
    (control : Control Res) : M Z :=
  c <- newPoint (pointOfControl control) ;;
  v <- vectorFromOrigin fabricObject c ;;
  rotation <- calcVectorRotation v ;;
  ret (JS.round (JS.rem (rotation + twoMathPi) twoMathPi / PIBy4)).

Definition normalizePoint (target point : positive)
    (originX : TOriginX) (originY : TOriginY) : M positive :=
  angle <- getTotalAngle target ;;
  xy <- getXY target originX originY ;;
  m <- groupTransformMatrix target ;;
  p <- sendPointToPlane xy None m ;;
  p2 <- (if JS.truthy angle
         then c <- getRelativeCenterPoint target ;;
              rotate point (- angle) c
         else ret point) ;;
  subtract p2 p.

Definition getLocalPoint (tr : Transform)
    (originX : TOriginX) (originY : TOriginY) (x y : R) : M positive :=
  o <- getObject (target tr) ;;
  let control := FabricObject.controls o !! corner tr in
  let zoom := zoomOf o in
  let padding := FabricObject.padding o / zoom in
  pt <- newPoint (Point.mk x y) ;;
  localPoint <- normalizePoint (target tr) pt originX originY ;;
  lx <- getX localPoint ;;
  (if Rge_dec lx padding then setX localPoint (lx - padding) else ret tt) ;;
  lx <- getX localPoint ;;
  (if Rle_dec lx (- padding) then setX localPoint (lx + padding)
   else ret tt) ;;
  ly <- getY localPoint ;;
  (if Rge_dec ly padding then setY localPoint (ly - padding) else ret tt) ;;
  ly <- getY localPoint ;;
  (if Rle_dec ly padding then setY localPoint (ly + padding) else ret tt) ;;
  match control with
  | Some control =>
      lx <- getX localPoint ;;
      setX localPoint (lx - Control.offsetX control) ;;
      ly <- getY localPoint ;;
      setY localPoint (ly - Control.offsetY control) ;;
      ret localPoint
  | None => throw
  end.

(** *** Frames *)

(** A store [h] keeps the base store [h0]: the objects are those of
    [h0], and every point of [h0] is in [h], unchanged. *)
Definition keeps (h0 h : heap Res) : Prop :=
  objects h = objects h0 /\ points h0 ⊆ points h.

(** A computation keeps [h0] from every store that keeps it, and its
    result satisfies [Q]. *)
Definition frames {A : Type} (h0 : heap Res) (m : M A) (Q : A -> Prop)
  : Prop :=
  forall h, keeps h0 h ->
    keeps h0 (m h).2 /\ forall a, (m h).1 = Returns a -> Q a.

(** An address outside the base store. *)
Definition new_in (h0 : heap Res) (l : positive) : Prop :=
  l ∉ dom (points h0).

(** *** Runs *)

(** The run of [m] from [h] ends in an outcome and a store that satisfy
    [Q]. *)
Inductive wp {A : Type} (m : M A) (h : heap Res)
  (Q : outcome A -> heap Res -> Prop) : Prop :=
| wp_run : Q (m h).1 (m h).2 -> wp m h Q.

End Run.

End Store.

(** ** Circles: [src/shapes/Circle.ts] *)

Module Circle.

(** [UniqueCircleProps]: the radius and the two angles, in degrees. *)
Record UniqueCircleProps : Type :=
  mkProps { radius : R; startAngle : R; endAngle : R }.

(** [circleDefaultValues] (lines 50-54). *)
Definition circleDefaultValues : UniqueCircleProps := mkProps 0 0 360.

(** One part of an entry of the markup: a piece of text, or a number that
    the caller prints. *)
Inductive SvgPart : Type :=
| Text (s : string)
| Number (v : R).

(** The double quote and the line feed, as strings. *)
Definition quote : string := String "034"%char EmptyString.
Definition newline : string := String "010"%char EmptyString.

Section ToSVG.

(** The helpers [degreesToRadians], [cos] and [sin] of [src/util/misc] are
    not among the sources; [_toSVG] is given them. *)
Variables (degreesToRadians cos sin : R -> R).

(** [_toSVG] (lines 146-177).  The array it returns is a list of entries;
    a template literal is the list of its parts, a string or a number an
    entry of one part. *)
Definition _toSVG (this : UniqueCircleProps) : list (list SvgPart) :=
  let angle := JS.rem (endAngle this - startAngle this) 360 in
  if Req_dec_T angle 0 then
    [ [Text "<circle "];
      [Text "COMMON_PARTS"];
      [Text ("cx=" ++ quote ++ "0" ++ quote ++ " cy=" ++ quote ++ "0"
             ++ quote ++ " ")];
      [Text ("r=" ++ quote)];
      [Number (radius this)];
      [Text (quote ++ " />" ++ newline)] ]
  else
    let radius := radius this in
    let start := degreesToRadians (startAngle this) in
    let end_ := degreesToRadians (endAngle this) in
    let startX := cos start * radius in
    let startY := sin start * radius in
    let endX := cos end_ * radius in
    let endY := sin end_ * radius in
    let largeFlag := if Rgt_dec angle 180 then "1"%string else "0"%string in
    [ [Text ("<path d=" ++ quote ++ "M "); Number startX; Text " ";
       Number startY];
      [Text " A "; Number radius; Text " "; Number radius];
      [Text " 0 "];
      [Text largeFlag; Text " 1"];
      [Text " "; Number endX; Text " "; Number endY];
      [Text (quote ++ " ")];
      [Text "COMMON_PARTS"];
      [Text (" />" ++ newline)] ].

End ToSVG.

(** The entry [<circle ] opens the markup of a full circle. *)
Definition isCircleElement (svg : list (list SvgPart)) : bool :=
  match svg with
  | [Text s] :: _ => String.eqb s "<circle "
  | _ => false
  end.

(** The entry that opens the markup of an arc, at the start point
    [(startX, startY)]. *)
Definition pathOpening (startX startY : R) : list SvgPart :=
  [Text ("<path d=" ++ quote ++ "M "); Number startX; Text " ";
   Number startY].

(** The large-arc flag of the markup of an arc: the first part of its
    fourth entry. *)
Definition largeArcFlag (svg : list (list SvgPart)) : option string :=
  match svg with
  | _ :: _ :: _ :: (Text flag :: _) :: _ => Some flag
  | _ => None
  end.

(** The entries that are the placeholder [COMMON_PARTS]. *)
Definition isCommonParts (entry : list SvgPart) : bool :=
  match entry with
  | [Text s] => String.eqb s "COMMON_PARTS"
  | _ => false
  end.

End Circle.

(** ** Sample inputs *)

Module Sample.

(** The resolver of a stock control answers the action name stored in
    the control; events carry nothing the resolvers below look at. *)
#[global] Instance call : ActionNameCall unit string :=
  fun actionName _ _ _ => actionName.

Definition br : Control string := Control.mk (1 / 2) (1 / 2) 0 0 "scale".
Definition mr : Control string := Control.mk (1 / 2) 0 0 0 "scaleX".
Definition mtr : Control string := Control.mk 0 (- (1 / 2)) 0 (- 40) "rotate".
Definition mid : Control string := Control.mk 0 0 0 0 "drag".

Definition controls : gmap string (Control string) :=
  <["br" := br]> (<["mr" := mr]> (<["mtr" := mtr]> (<["mid" := mid]> ∅))).

(** A 100 x 100 box at [(left, top)], unscaled, unskewed, unlocked, on
    no canvas. *)
Definition box (left top angle padding : R)
    (group : option (FabricObject string)) : FabricObject string :=
  FabricObject.mk left top 100 100 1 1 angle 0 0 padding
    false false false false false false false false
    group controls None.

(** A circle of radius [0], the default of [Circle]: a box without
    extent. *)
Definition dot (angle : R) : FabricObject string :=
  FabricObject.mk 0 0 0 0 1 1 angle 0 0 0
    false false false false false false false false
    None controls None.

(** An unturned box inside a group that sits at the origin of the canvas,
    unturned and unscaled. *)
Definition grouped : FabricObject string :=
  box 0 0 0 0 (Some (box 0 0 0 0 None)).

(** A box turned by half a turn, inside a group that sits at the origin
    of the canvas, unturned and unscaled. *)
Definition nested : FabricObject string :=
  box 0 0 PI 0 (Some (box 0 0 0 0 None)).

Definition gesture (target : FabricObject string) (corner : string)
  : Transform string :=
  Transform.mk target corner "scale" OCenter OCenter.

End Sample.

(** The octant of an angle, as [findCornerQuadrant] computes it from the
    rotation of the vector. *)
Definition octantOfRotation (rotation : R) : Z :=
  JS.round (JS.rem (rotation + twoMathPi) twoMathPi / PIBy4).

(** The object turned by [delta] around its own center. *)
Definition rotateObject {Res : Type} (delta : R) (o : FabricObject Res)
  : FabricObject Res :=
  FabricObject.set_angle (FabricObject.angle o + delta) o.

(** The object moved by the vector [d] in the plane of its parent. *)
Definition translateObject {Res : Type} (d : Point) (o : FabricObject Res)
  : FabricObject Res :=
  FabricObject.set_position
    (FabricObject.left o + Point.x d) (FabricObject.top o + Point.y d) o.

(** The object and every one of its ancestor groups moved by [d]. *)
Fixpoint translateAll {Res : Type} (d : Point) (o : FabricObject Res)
  : FabricObject Res :=
  translateObject d
    (FabricObject.set_group
       match FabricObject.group o with
       | Some g => Some (translateAll d g)
       | None => None
       end o).

(** The whole nest moved by [d]: the outermost ancestor alone changes its
    position. *)
Fixpoint translateRoot {Res : Type} (d : Point) (o : FabricObject Res)
  : FabricObject Res :=
  match FabricObject.group o with
  | Some g => FabricObject.set_group (Some (translateRoot d g)) o
  | None => translateObject d o
  end.


(** The transform context aimed at another target. *)
Definition retarget {Res : Type} (tr : Transform Res)
    (target : FabricObject Res) : Transform Res :=
  Transform.mk target (Transform.corner tr) (Transform.action tr)
    (Transform.originX tr) (Transform.originY tr).

(** The vector from the rotation origin to a control is null: the control
    sits on the origin, or the box has no extent along its axis. *)
Definition nullVector {Res : Type} (o : FabricObject Res) (c : Control Res)
  : Prop :=
  Control.x c * (FabricObject.width o * FabricObject.scaleX o) = 0 /\
  Control.y c * (FabricObject.height o * FabricObject.scaleY o) = 0.

(** * Properties *)

(** ** Arithmetic of JavaScript numbers *)

Section JSFacts.

Lemma floor_spec (r : R) : IZR (JS.floor r) <= r < IZR (JS.floor r) + 1.
Proof.
  unfold JS.floor. rewrite minus_IZR.
  destruct (archimed r) as [Hgt Hle]. lra.
Qed.

Lemma floor_unique (r : R) (z : Z) :
  IZR z <= r < IZR z + 1 -> JS.floor r = z.
Proof.
  intros [Hlo Hhi]. destruct (floor_spec r) as [Flo Fhi].
  assert (H1 : (z < JS.floor r + 1)%Z).
  { apply lt_IZR. rewrite plus_IZR. lra. }
  assert (H2 : (JS.floor r < z + 1)%Z).
  { apply lt_IZR. rewrite plus_IZR. lra. }
  lia.
Qed.

Lemma floor_plus_IZR (r : R) (z : Z) :
  JS.floor (r + IZR z) = (JS.floor r + z)%Z.
Proof.
  apply floor_unique. rewrite plus_IZR.
  destruct (floor_spec r). lra.
Qed.

Lemma round_plus_IZR (r : R) (z : Z) :
  JS.round (r + IZR z) = (JS.round r + z)%Z.
Proof.
  unfold JS.round.
  replace (r + IZR z + / 2) with (r + / 2 + IZR z) by lra.
  apply floor_plus_IZR.
Qed.

Lemma trunc_nonneg (r : R) : 0 <= r -> JS.trunc r = JS.floor r.
Proof.
  intros Hr. unfold JS.trunc. destruct (Rle_dec 0 r); [reflexivity | lra].
Qed.

(** The remainder of a dividend in [[0, 2 b)] by [b > 0]. *)
Lemma rem_below (a b : R) : 0 < b -> 0 <= a < b -> JS.rem a b = a.
Proof.
  intros Hb [Hlo Hhi]. unfold JS.rem.
  assert (Hq : 0 <= a / b < 1).
  { split.
    - apply Rmult_le_pos; [lra | left; now apply Rinv_0_lt_compat].
    - apply (Rmult_lt_reg_r b); [lra |]. field_simplify; lra. }
  rewrite trunc_nonneg by lra.
  rewrite (floor_unique (a / b) 0) by (simpl; lra).
  simpl. lra.
Qed.

Lemma rem_above (a b : R) : 0 < b -> b <= a < 2 * b -> JS.rem a b = a - b.
Proof.
  intros Hb [Hlo Hhi]. unfold JS.rem.
  assert (Hq : 1 <= a / b < 2).
  { split.
    - apply (Rmult_le_reg_r b); [lra |]. field_simplify; lra.
    - apply (Rmult_lt_reg_r b); [lra |]. field_simplify; lra. }
  rewrite trunc_nonneg by lra.
  rewrite (floor_unique (a / b) 1) by (simpl; lra).
  simpl. lra.
Qed.

(** *** Angles *)

Lemma atan_sign_nonpos (t : R) : t <= 0 -> atan t <= 0.
Proof.
  intros [Hlt | ->]; [| rewrite atan_0; lra].
  left. rewrite <- atan_0. now apply atan_increasing.
Qed.

Lemma atan_sign_pos (t : R) : 0 < t -> 0 < atan t.
Proof. intros Ht. rewrite <- atan_0. now apply atan_increasing. Qed.

Lemma quotient_neg_pos (y x : R) : x < 0 -> y < 0 -> 0 < y / x.
Proof.
  intros Hx Hy. replace (y / x) with ((- y) * / (- x)) by (field; lra).
  apply Rmult_lt_0_compat; [lra | apply Rinv_0_lt_compat; lra].
Qed.

Lemma quotient_neg_nonneg (y x : R) : x < 0 -> 0 <= y -> y / x <= 0.
Proof.
  intros Hx Hy. replace (y / x) with (- (y * / (- x))) by (field; lra).
  assert (0 <= y * / (- x)); [| lra].
  apply Rmult_le_pos; [lra | left; apply Rinv_0_lt_compat; lra].
Qed.

(** [Math.atan2] answers in [(-PI, PI]]. *)
Lemma atan2_bounds (y x : R) : - PI < JS.atan2 y x <= PI.
Proof.
  pose proof PI_RGT_0 as Hpi. unfold JS.atan2.
  destruct (Rlt_dec 0 x) as [Hx | Hx].
  { pose proof (atan_bound (y / x)). lra. }
  destruct (Rlt_dec x 0) as [Hx' | Hx'].
  { pose proof (atan_bound (y / x)) as Hb.
    destruct (Rle_dec 0 y) as [Hy | Hy].
    - pose proof (atan_sign_nonpos _ (quotient_neg_nonneg y x Hx' Hy)). lra.
    - assert (Hy' : y < 0) by lra.
      pose proof (atan_sign_pos _ (quotient_neg_pos y x Hx' Hy')). lra. }
  destruct (Rlt_dec 0 y); [lra |].
  destruct (Rlt_dec y 0); lra.
Qed.

Lemma norm_factor_pos (t : R) : 0 < sqrt (1 + t²).
Proof.
  apply sqrt_lt_R0. pose proof (Rle_0_sqr t). lra.
Qed.

(** A non-null vector is its length along the direction [Math.atan2]
    gives. *)
Lemma atan2_polar (y x : R) :
  x <> 0 \/ y <> 0 ->
  exists r : R,
    0 < r /\ x = r * cos (JS.atan2 y x) /\ y = r * sin (JS.atan2 y x).
Proof.
  intros Hnz. unfold JS.atan2.
  pose proof (norm_factor_pos (y / x)) as Hs.
  destruct (Rlt_dec 0 x) as [Hx | Hx].
  { exists (x * sqrt (1 + (y / x)²)).
    rewrite cos_atan, sin_atan.
    set (s := sqrt (1 + (y / x)²)) in *.
    split; [now apply Rmult_lt_0_compat |].
    split; field; repeat split; lra. }
  destruct (Rlt_dec x 0) as [Hx' | Hx'].
  { exists (- x * sqrt (1 + (y / x)²)).
    split; [apply Rmult_lt_0_compat; lra |].
    destruct (Rle_dec 0 y) as [Hy | Hy].
    - rewrite neg_cos, neg_sin, cos_atan, sin_atan.
      set (s := sqrt (1 + (y / x)²)) in *.
      split; field; repeat split; lra.
    - rewrite cos_minus, sin_minus, cos_PI, sin_PI, cos_atan, sin_atan.
      set (s := sqrt (1 + (y / x)²)) in *.
      split; field; repeat split; lra. }
  assert (Hx0 : x = 0) by lra.
  assert (Hy0 : y <> 0) by (destruct Hnz; [lra | assumption]).
  destruct (Rlt_dec 0 y) as [Hy | Hy].
  { exists y. rewrite cos_PI2, sin_PI2. repeat split; lra. }
  destruct (Rlt_dec y 0) as [Hy' | Hy']; [| lra].
  exists (- y). rewrite cos_neg, sin_neg, cos_PI2, sin_PI2.
  repeat split; lra.
Qed.

(** Two angles with the same cosine and the same sine differ by whole
    turns. *)
Lemma angle_unique (alpha beta : R) :
  cos alpha = cos beta -> sin alpha = sin beta ->
  exists k : Z, alpha = beta + 2 * IZR k * PI.
Proof.
  intros Hc Hs.
  assert (H1 : cos (alpha - beta) = 1).
  { rewrite cos_minus, Hc, Hs.
    pose proof (sin2_cos2 beta) as H. unfold Rsqr in H. lra. }
  assert (H2 : sin ((alpha - beta) / 2) = 0).
  { pose proof (cos_2a_sin ((alpha - beta) / 2)) as H.
    replace (2 * ((alpha - beta) / 2)) with (alpha - beta) in H by lra.
    rewrite H1 in H. nra. }
  destruct (sin_eq_0_0 _ H2) as [k Hk].
  exists k. lra.
Qed.

Lemma polar_unique (r1 r2 alpha beta : R) :
  0 < r1 -> 0 < r2 ->
  r1 * cos alpha = r2 * cos beta ->
  r1 * sin alpha = r2 * sin beta ->
  exists k : Z, alpha = beta + 2 * IZR k * PI.
Proof.
  intros H1 H2 Hc Hs.
  pose proof (sin2_cos2 alpha) as Ha. pose proof (sin2_cos2 beta) as Hb.
  unfold Rsqr in Ha, Hb.
  assert (Hsq : r1 * r1 = r2 * r2).
  { transitivity ((r1 * cos alpha) * (r1 * cos alpha)
                  + (r1 * sin alpha) * (r1 * sin alpha)).
    - transitivity (r1 * r1 * (sin alpha * sin alpha + cos alpha * cos alpha));
        [rewrite Ha | ]; ring.
    - rewrite Hc, Hs.
      transitivity (r2 * r2 * (sin beta * sin beta + cos beta * cos beta));
        [ring | rewrite Hb; ring]. }
  assert (Hr : r1 = r2) by nra.
  subst r2.
  apply angle_unique; apply (Rmult_eq_reg_l r1); auto; lra.
Qed.

Lemma whole_turns_zero (alpha beta : R) (k : Z) :
  - PI < alpha <= PI -> - PI < beta <= PI ->
  alpha = beta + 2 * IZR k * PI -> alpha = beta.
Proof.
  intros Ha Hb E. pose proof PI_RGT_0 as Hpi.
  assert (Hk : - 1 < IZR k < 1) by (split; nra).
  assert (k = 0%Z).
  { destruct Hk as [Hlo Hhi].
    apply lt_IZR in Hhi. change (-1) with (IZR (-1)) in Hlo.
    apply lt_IZR in Hlo. lia. }
  subst k. lra.
Qed.

(** [Math.atan2] recovers the angle of a vector given by its length and
    its direction. *)
Lemma atan2_of_polar (r theta : R) :
  0 < r -> - PI < theta <= PI ->
  JS.atan2 (r * sin theta) (r * cos theta) = theta.
Proof.
  intros Hr Ht.
  assert (Hnz : r * cos theta <> 0 \/ r * sin theta <> 0).
  { destruct (Req_dec (cos theta) 0) as [Hc | Hc].
    - right. intros H. apply (cos_sin_0 theta). split; [assumption |].
      apply (Rmult_eq_reg_l r); lra.
    - left. intros H. apply Hc. apply (Rmult_eq_reg_l r); lra. }
  destruct (atan2_polar _ _ Hnz) as (r' & Hr' & Hx & Hy).
  destruct (polar_unique r' r _ theta Hr' Hr (eq_sym Hx) (eq_sym Hy))
    as [k Hk].
  apply (whole_turns_zero _ _ k); auto using atan2_bounds.
Qed.

Lemma atan2_of_polar_turns (r theta : R) :
  0 < r ->
  exists k : Z,
    JS.atan2 (r * sin theta) (r * cos theta) = theta + 2 * IZR k * PI.
Proof.
  intros Hr.
  assert (Hnz : r * cos theta <> 0 \/ r * sin theta <> 0).
  { destruct (Req_dec (cos theta) 0) as [Hc | Hc].
    - right. intros H. apply (cos_sin_0 theta). split; [assumption |].
      apply (Rmult_eq_reg_l r); lra.
    - left. intros H. apply Hc. apply (Rmult_eq_reg_l r); lra. }
  destruct (atan2_polar _ _ Hnz) as (r' & Hr' & Hx & Hy).
  exact (polar_unique r' r _ theta Hr' Hr (eq_sym Hx) (eq_sym Hy)).
Qed.

(** *** Octants *)

(** Adding a full turn and taking the remainder brings an angle of
    [(-PI, PI]] into [[0, 2 PI)], by zero or one turn. *)
Lemma rem_full_turn (theta : R) :
  - PI < theta <= PI ->
  exists m : Z,
    JS.rem (theta + twoMathPi) twoMathPi = theta + 2 * IZR m * PI /\
    0 <= theta + 2 * IZR m * PI < 2 * PI.
Proof.
  intros Ht. pose proof PI_RGT_0 as Hpi. unfold twoMathPi.
  destruct (Rlt_dec theta 0) as [Hneg | Hpos].
  - exists 1%Z. rewrite rem_below by lra. split; lra.
  - exists 0%Z. rewrite rem_above by lra. simpl. split; lra.
Qed.

Lemma octantOfRotation_range (theta : R) :
  - PI < theta <= PI -> (0 <= octantOfRotation theta <= 8)%Z.
Proof.
  intros Ht. pose proof PI_RGT_0 as Hpi.
  destruct (rem_full_turn theta Ht) as (m & Hm & Hlo & Hhi).
  unfold octantOfRotation, JS.round. rewrite Hm.
  set (a := theta + 2 * IZR m * PI) in *.
  assert (Hq : 0 <= a / PIBy4 < 8).
  { unfold PIBy4. split.
    - apply Rmult_le_pos; [lra | left; apply Rinv_0_lt_compat; lra].
    - apply (Rmult_lt_reg_r (PI / 4)); [lra |]. field_simplify; lra. }
  destruct (floor_spec (a / PIBy4 + / 2)) as [Flo Fhi].
  split.
  - assert (H : (-1 < JS.floor (a / PIBy4 + / 2))%Z)
      by (apply lt_IZR; lra). lia.
  - assert (H : (JS.floor (a / PIBy4 + / 2) < 9)%Z)
      by (apply lt_IZR; lra). lia.
Qed.

(** Two angles of [(-PI, PI]] that differ by an eighth of a turn, up to
    whole turns, have octants that differ by one, modulo [8]. *)
Lemma octantOfRotation_shift (theta theta' : R) (k : Z) :
  - PI < theta <= PI -> - PI < theta' <= PI ->
  theta' = theta + PI / 4 + 2 * IZR k * PI ->
  ((octantOfRotation theta' - octantOfRotation theta - 1) mod 8 = 0)%Z.
Proof.
  intros Ht Ht' E. pose proof PI_RGT_0 as Hpi.
  destruct (rem_full_turn theta Ht) as (m & Hm & _).
  destruct (rem_full_turn theta' Ht') as (m' & Hm' & _).
  unfold octantOfRotation. rewrite Hm, Hm'.
  replace ((theta' + 2 * IZR m' * PI) / PIBy4)
    with ((theta + 2 * IZR m * PI) / PIBy4 + IZR (1 + 8 * (k + m' - m))).
  2:{ rewrite E, plus_IZR, mult_IZR, minus_IZR, plus_IZR.
      unfold PIBy4. field. lra. }
  rewrite round_plus_IZR.
  match goal with |- ((?q + ?z - ?q - 1) mod 8 = 0)%Z =>
    replace (q + z - q - 1)%Z with ((k + m' - m) * 8)%Z by lia end.
  apply Z.mod_mul. lia.
Qed.

End JSFacts.


(** ** Origins *)

Lemma Point_eq_true (p q : Point) :
  Point.eq p q = true <-> Point.x p = Point.x q /\ Point.y p = Point.y q.
Proof.
  unfold Point.eq.
  destruct (Req_dec_T (Point.x p) (Point.x q)) as [Hx | Hx];
    destruct (Req_dec_T (Point.y p) (Point.y q)) as [Hy | Hy];
    split; intros H; try discriminate; try tauto; auto.
Qed.

Lemma edge_resolveOrigin (o : TOrigin) : edge o -> resolveOrigin o <> 0.
Proof. destruct o; simpl; intros H; try contradiction; lra. Qed.

(** C6: [invertOrigin o] is [- resolveOrigin o + 0.5] for every origin [o]
    (symbolic or numeric), and inverting the inverted origin gives back the
    resolved value of [o]. *)
Theorem invertOrigin_twice (o : TOrigin) :
  invertOrigin o = - resolveOrigin o + 1 / 2 /\
  invertOrigin (ONumber (invertOrigin o)) = resolveOrigin o.
Proof.
  split; [reflexivity |].
  unfold invertOrigin. simpl. lra.
Qed.

(** C7: [isTransformCentered] answers [true] exactly when both resolved
    origin offsets are [0]; it answers [false] as soon as one axis resolves
    to a non-zero offset, in particular for an edge origin on either axis. *)
Theorem isTransformCentered_iff (originX : TOriginX) (originY : TOriginY) :
  (isTransformCentered originX originY = true <->
     resolveOrigin originX = 0 /\ resolveOrigin originY = 0) /\
  (resolveOrigin originX <> 0 \/ resolveOrigin originY <> 0 ->
     isTransformCentered originX originY = false) /\
  (edge originX \/ edge originY ->
     isTransformCentered originX originY = false).
Proof.
  assert (Hiff : isTransformCentered originX originY = true <->
                 resolveOrigin originX = 0 /\ resolveOrigin originY = 0).
  { unfold isTransformCentered. rewrite Point_eq_true. reflexivity. }
  assert (Hne : resolveOrigin originX <> 0 \/ resolveOrigin originY <> 0 ->
                isTransformCentered originX originY = false).
  { intros Hor. apply not_true_is_false. rewrite Hiff. tauto. }
  split; [exact Hiff |]. split; [exact Hne |].
  intros [He | He]; apply Hne; [left | right]; now apply edge_resolveOrigin.
Qed.

Lemma isTransformCentered_iff_witness :
  isTransformCentered OCenter OCenter = true /\
  isTransformCentered OLeft OCenter = false /\
  isTransformCentered OCenter OBottom = false.
Proof.
  split; [| split].
  - apply (proj1 (isTransformCentered_iff OCenter OCenter)).
    split; reflexivity.
  - apply (proj2 (proj2 (isTransformCentered_iff OLeft OCenter))).
    left. exact I.
  - apply (proj1 (proj2 (isTransformCentered_iff OCenter OBottom))).
    right. simpl. lra.
Defined.

(** ** The action resolver *)

Section ActionResolver.

Context {Ev Res : Type} `{!ActionNameCall Ev Res}.

(** C5: without a corner, or when the target was not already selected,
    the action is ["drag"] whatever control sits at the corner; otherwise
    it is what the resolver of the control of that corner answers for the
    event, the control and the target. *)
Theorem getActionFromCorner_spec (alreadySelected : bool) (corner : string)
    (e : Ev) (target : FabricObject Res) :
  (corner = ""%string \/ alreadySelected = false ->
     getActionFromCorner alreadySelected corner e target
     = Returns "drag"%string) /\
  (corner <> ""%string -> alreadySelected = true ->
     forall control : Control Res,
       FabricObject.controls target !! corner = Some control ->
       getActionFromCorner alreadySelected corner e target
       = Returns (callActionName (Control.getActionName control)
                    e control target)).
Proof.
  unfold getActionFromCorner. split.
  - intros [-> | ->]; [reflexivity |].
    now rewrite orb_true_r.
  - intros Hc -> control Hl.
    apply String.eqb_neq in Hc. rewrite Hc. simpl. now rewrite Hl.
Qed.

(** A corner that names no control of an already selected target makes
    the call throw. *)
Lemma getActionFromCorner_throws (corner : string) (e : Ev)
    (target : FabricObject Res) :
  corner <> ""%string ->
  FabricObject.controls target !! corner = None ->
  getActionFromCorner true corner e target = Throws.
Proof.
  intros Hc Hl. unfold getActionFromCorner.
  apply String.eqb_neq in Hc. rewrite Hc. simpl. now rewrite Hl.
Qed.

End ActionResolver.

Lemma getActionFromCorner_spec_witness :
  getActionFromCorner false "br" tt (Sample.box 100 100 0 0 None)
  = Returns "drag"%string /\
  getActionFromCorner true "br" tt (Sample.box 100 100 0 0 None)
  = Returns "scale"%string.
Proof.
  split.
  - apply (proj1 (getActionFromCorner_spec false "br" tt
                    (Sample.box 100 100 0 0 None))).
    right. reflexivity.
  - apply (proj2 (getActionFromCorner_spec true "br" tt
                    (Sample.box 100 100 0 0 None))
             ltac:(discriminate) eq_refl Sample.br).
    reflexivity.
Defined.

(** ** The local point *)

Section LocalPoint.

Context {Res : Type}.

Implicit Types (target : FabricObject Res) (tr : Transform Res).

Lemma sendPointToPlane_identity (p : Point) :
  sendPointToPlane p None None = p.
Proof.
  destruct p as [px py].
  unfold sendPointToPlane, Mat.transformPoint. simpl.
  f_equal; field.
Qed.

(** Without a parent group the anchor is not projected. *)
Lemma normalizePoint_ungrouped target (point : Point) originX originY :
  FabricObject.group target = None ->
  normalizePoint target point originX originY
  = Point.subtract
      (if JS.truthy (getTotalAngle target)
       then Point.rotate point (- getTotalAngle target)
              (getRelativeCenterPoint target)
       else point)
      (getXY target originX originY).
Proof.
  intros Hg. unfold normalizePoint. rewrite Hg. simpl.
  now rewrite sendPointToPlane_identity.
Qed.

(** The point [getLocalPoint] returns, coordinate by coordinate. *)
Lemma getLocalPoint_closed_form tr originX originY (x y : R)
    (control : Control Res) :
  FabricObject.controls (Transform.target tr) !! Transform.corner tr
  = Some control ->
  let target := Transform.target tr in
  let padding := FabricObject.padding target / zoomOf target in
  let n := normalizePoint target (Point.mk x y) originX originY in
  let u1 := if Rge_dec (Point.x n) padding
            then Point.x n - padding else Point.x n in
  let u2 := if Rle_dec u1 (- padding) then u1 + padding else u1 in
  let v1 := if Rge_dec (Point.y n) padding
            then Point.y n - padding else Point.y n in
  let v2 := if Rle_dec v1 padding then v1 + padding else v1 in
  getLocalPoint tr originX originY x y
  = Returns (Point.mk (u2 - Control.offsetX control)
                      (v2 - Control.offsetY control)).
Proof.
  intros Hc. unfold getLocalPoint. rewrite Hc. cbv zeta.
  generalize (normalizePoint (Transform.target tr) (Point.mk x y)
                originX originY).
  generalize (FabricObject.padding (Transform.target tr)
              / zoomOf (Transform.target tr)).
  intros padding [nx ny].
  unfold Point.set_x, Point.set_y. cbn [Point.x Point.y].
  destruct (Rge_dec nx padding); cbn [Point.x Point.y];
    match goal with |- context [Rle_dec ?a (- padding)] =>
      destruct (Rle_dec a (- padding)) end; cbn [Point.x Point.y];
    destruct (Rge_dec ny padding); cbn [Point.x Point.y];
    match goal with |- context [Rle_dec ?a padding] =>
      destruct (Rle_dec a padding) end; cbn [Point.x Point.y];
    reflexivity.
Qed.

(** C2: with padding [P > 0] and zoom [1], the x-axis collapse sends a
    normalized local abscissa [P] to [0], [P + 5] to [5] and [- P] to
    [0]; the returned abscissa is that value less [offsetX]. *)
Theorem getLocalPoint_x_collapse tr originX originY (x y : R)
    (control : Control Res) (P : R) :
  FabricObject.padding (Transform.target tr) = P ->
  0 < P ->
  zoomOf (Transform.target tr) = 1 ->
  FabricObject.controls (Transform.target tr) !! Transform.corner tr
  = Some control ->
  let u := Point.x (normalizePoint (Transform.target tr) (Point.mk x y)
                      originX originY) in
  exists localPoint : Point,
    getLocalPoint tr originX originY x y = Returns localPoint /\
    (u = P -> Point.x localPoint = 0 - Control.offsetX control) /\
    (u = P + 5 -> Point.x localPoint = 5 - Control.offsetX control) /\
    (u = - P -> Point.x localPoint = 0 - Control.offsetX control).
Proof.
  intros HP Hpos Hz Hc u.
  eexists. split; [apply (getLocalPoint_closed_form tr _ _ _ _ control Hc) |].
  cbv zeta. fold u. rewrite HP, Hz. cbn [Point.x Point.y].
  replace (P / 1) with P by lra.
  repeat split; intros Hu;
    destruct (Rge_dec u P);
    match goal with |- context [Rle_dec ?a (- P)] =>
      destruct (Rle_dec a (- P)) end; lra.
Qed.

(** C3: the y-axis collapse subtracts the padding from a local ordinate
    that is [>= padding], and then adds the padding when the ordinate is
    [<= + padding]; the x-axis tests [<= - padding] at that place. *)
Theorem getLocalPoint_y_threshold tr originX originY (x y : R)
    (control : Control Res) :
  FabricObject.controls (Transform.target tr) !! Transform.corner tr
  = Some control ->
  let target := Transform.target tr in
  let padding := FabricObject.padding target / zoomOf target in
  let n := normalizePoint target (Point.mk x y) originX originY in
  exists (localPoint : Point) (u1 v1 : R),
    getLocalPoint tr originX originY x y = Returns localPoint /\
    (Point.y n >= padding -> v1 = Point.y n - padding) /\
    (~ Point.y n >= padding -> v1 = Point.y n) /\
    (v1 <= padding ->
       Point.y localPoint = v1 + padding - Control.offsetY control) /\
    (~ v1 <= padding ->
       Point.y localPoint = v1 - Control.offsetY control) /\
    (Point.x n >= padding -> u1 = Point.x n - padding) /\
    (~ Point.x n >= padding -> u1 = Point.x n) /\
    (u1 <= - padding ->
       Point.x localPoint = u1 + padding - Control.offsetX control) /\
    (~ u1 <= - padding ->
       Point.x localPoint = u1 - Control.offsetX control).
Proof.
  intros Hc target padding n.
  pose proof (getLocalPoint_closed_form tr originX originY x y control Hc)
    as Hcf.
  cbv zeta in Hcf. fold target padding n in Hcf.
  eexists _,
    (if Rge_dec (Point.x n) padding then Point.x n - padding else Point.x n),
    (if Rge_dec (Point.y n) padding then Point.y n - padding else Point.y n).
  split; [exact Hcf |]. cbn [Point.x Point.y].
  destruct (Rge_dec (Point.x n) padding);
    destruct (Rge_dec (Point.y n) padding);
    match goal with |- context [Rle_dec ?a padding] =>
      destruct (Rle_dec a padding) end;
    match goal with |- context [Rle_dec ?a (- padding)] =>
      destruct (Rle_dec a (- padding)) end;
    repeat split; intros; try reflexivity; try contradiction; try lra.
Qed.

(** C4: with padding [P > 0], zoom [1] and [offsetY = 0], a normalized
    local ordinate [v < P] comes out as [v + P], [P <= v <= 2 P] comes
    out unchanged, and [v > 2 P] comes out as [v - P]; only [v = - P]
    comes out as [0], so no positive ordinate does. *)
Theorem getLocalPoint_y_characterized tr originX originY (x y : R)
    (control : Control Res) (P : R) :
  FabricObject.padding (Transform.target tr) = P ->
  0 < P ->
  zoomOf (Transform.target tr) = 1 ->
  FabricObject.controls (Transform.target tr) !! Transform.corner tr
  = Some control ->
  Control.offsetY control = 0 ->
  let v := Point.y (normalizePoint (Transform.target tr) (Point.mk x y)
                      originX originY) in
  exists localPoint : Point,
    getLocalPoint tr originX originY x y = Returns localPoint /\
    (v < P -> Point.y localPoint = v + P) /\
    (P <= v <= 2 * P -> Point.y localPoint = v) /\
    (2 * P < v -> Point.y localPoint = v - P) /\
    (v = 0 -> Point.y localPoint = P) /\
    (v = - P -> Point.y localPoint = 0) /\
    (v = P -> Point.y localPoint = P) /\
    (0 < v -> Point.y localPoint <> 0) /\
    (Point.y localPoint = 0 -> v = - P).
Proof.
  intros HP Hpos Hz Hc Hoff v.
  eexists. split; [apply (getLocalPoint_closed_form tr _ _ _ _ control Hc) |].
  cbv zeta. fold v. rewrite HP, Hz, Hoff. cbn [Point.x Point.y].
  replace (P / 1) with P by lra.
  destruct (Rge_dec v P);
    match goal with |- context [Rle_dec ?a P] =>
      destruct (Rle_dec a P) end;
    repeat split; intros; lra.
Qed.

End LocalPoint.

(** *** The sample box at rest *)

Lemma truthy_zero_sum : JS.truthy (0 + 0) = false.
Proof.
  unfold JS.truthy. destruct (Req_dec_T (0 + 0) 0) as [_ | Hne];
    [reflexivity | exfalso; apply Hne; lra].
Qed.

Lemma normalizePoint_box_at_rest (left top padding x y : R) :
  normalizePoint (Sample.box left top 0 padding None) (Point.mk x y)
    OCenter OCenter
  = Point.mk (x - left) (y - top).
Proof.
  rewrite normalizePoint_ungrouped by reflexivity.
  cbn [getTotalAngle Sample.box FabricObject.angle FabricObject.group].
  rewrite truthy_zero_sum.
  unfold Point.subtract, getXY, getRelativeCenterPoint, Point.add. simpl.
  f_equal; lra.
Qed.

Lemma getLocalPoint_x_collapse_witness :
  exists localPoint : Point,
    getLocalPoint (Sample.gesture (Sample.box 0 0 0 10 None) "br")
      OCenter OCenter 10 0 = Returns localPoint /\
    Point.x localPoint = 0 - 0.
Proof.
  destruct (getLocalPoint_x_collapse
              (Sample.gesture (Sample.box 0 0 0 10 None) "br")
              OCenter OCenter 10 0 Sample.br 10)
    as (lp & Heq & H1 & _ & _).
  - reflexivity.
  - lra.
  - reflexivity.
  - reflexivity.
  - exists lp. split; [exact Heq |]. apply H1.
    cbn [Sample.gesture Transform.target].
    rewrite normalizePoint_box_at_rest. simpl. lra.
Defined.

Lemma getLocalPoint_y_threshold_witness :
  exists localPoint : Point,
    getLocalPoint (Sample.gesture (Sample.box 0 0 0 10 None) "br")
      OCenter OCenter 0 (- 4) = Returns localPoint /\
    Point.y localPoint = 6.
Proof.
  destruct (getLocalPoint_y_threshold
              (Sample.gesture (Sample.box 0 0 0 10 None) "br")
              OCenter OCenter 0 (- 4) Sample.br)
    as (lp & u1 & v1 & Heq & _ & Hv1 & Hadd & _).
  - reflexivity.
  - exists lp. split; [exact Heq |].
    cbn [Sample.gesture Transform.target] in Hv1, Hadd.
    rewrite normalizePoint_box_at_rest in Hv1.
    cbn [Point.y Sample.box FabricObject.padding zoomOf FabricObject.canvas]
      in Hv1, Hadd.
    assert (E : v1 = - 4 - 0) by (apply Hv1; lra).
    rewrite Hadd by lra. simpl. lra.
Defined.

Lemma getLocalPoint_y_characterized_witness :
  exists localPoint : Point,
    getLocalPoint (Sample.gesture (Sample.box 0 0 0 10 None) "br")
      OCenter OCenter 0 10 = Returns localPoint /\
    Point.y localPoint = 10.
Proof.
  destruct (getLocalPoint_y_characterized
              (Sample.gesture (Sample.box 0 0 0 10 None) "br")
              OCenter OCenter 0 10 Sample.br 10)
    as (lp & Heq & _ & _ & _ & _ & _ & HP & _).
  - reflexivity.
  - lra.
  - reflexivity.
  - reflexivity.
  - reflexivity.
  - exists lp. split; [exact Heq |]. apply HP.
    cbn [Sample.gesture Transform.target].
    rewrite normalizePoint_box_at_rest. simpl. lra.
Defined.

(** ** The quadrant of a control *)

Section Quadrant.

Context {Res : Type}.

Implicit Types (o : FabricObject Res) (c : Control Res).

Lemma findCornerQuadrant_octant o c :
  findCornerQuadrant o c
  = octantOfRotation
      (calcVectorRotation (vectorFromOrigin o (pointOfControl c))).
Proof. reflexivity. Qed.

(** X9: for every object and every control, the quadrant number lies
    between [0] and [8]. *)
Lemma findCornerQuadrant_range o c : (0 <= findCornerQuadrant o c <= 8)%Z.
Proof.
  rewrite findCornerQuadrant_octant.
  apply octantOfRotation_range, atan2_bounds.
Qed.

(** Angles just below the positive x-axis fall in octant [8]. *)
Lemma octantOfRotation_last (theta : R) :
  - (PI / 8) <= theta < 0 -> octantOfRotation theta = 8%Z.
Proof.
  intros [Hlo Hhi]. pose proof PI_RGT_0 as Hpi.
  unfold octantOfRotation, twoMathPi, PIBy4, JS.round.
  rewrite rem_below by lra.
  apply floor_unique.
  replace ((theta + 2 * PI) / (PI / 4)) with (8 + theta / (PI / 4))
    by (field; lra).
  assert (Hq : - / 2 <= theta / (PI / 4) < 0).
  { split.
    - apply (Rmult_le_reg_r (PI / 4)); [lra |]. field_simplify; lra.
    - apply (Rmult_lt_reg_r (PI / 4)); [lra |]. field_simplify; lra. }
  lra.
Qed.

Lemma getTotalAngle_rotateObject (delta : R) o :
  getTotalAngle (rotateObject delta o) = getTotalAngle o + delta.
Proof. destruct o. simpl. lra. Qed.

Lemma vectorFromOrigin_coordinates o (p : Point) :
  let bx := Point.x p * (FabricObject.width o * FabricObject.scaleX o) in
  let by_ := Point.y p * (FabricObject.height o * FabricObject.scaleY o) in
  let a := getTotalAngle o in
  vectorFromOrigin o p
  = Point.mk (bx * cos a - by_ * sin a) (bx * sin a + by_ * cos a).
Proof.
  unfold vectorFromOrigin, Point.rotate. simpl. f_equal; ring.
Qed.

Lemma vectorFromOrigin_rotateObject (delta : R) o (p : Point) :
  let bx := Point.x p * (FabricObject.width o * FabricObject.scaleX o) in
  let by_ := Point.y p * (FabricObject.height o * FabricObject.scaleY o) in
  let a := getTotalAngle o + delta in
  vectorFromOrigin (rotateObject delta o) p
  = Point.mk (bx * cos a - by_ * sin a) (bx * sin a + by_ * cos a).
Proof.
  rewrite vectorFromOrigin_coordinates, getTotalAngle_rotateObject.
  destruct o. reflexivity.
Qed.

(** Turning a non-null vector by [a] adds [a] to its angle, up to whole
    turns. *)
Lemma rotation_of_turned_vector (bx by_ a : R) :
  bx <> 0 \/ by_ <> 0 ->
  exists k : Z,
    JS.atan2 (bx * sin a + by_ * cos a) (bx * cos a - by_ * sin a)
    = JS.atan2 by_ bx + a + 2 * IZR k * PI.
Proof.
  intros Hnz.
  destruct (atan2_polar _ _ Hnz) as (r & Hr & Hx & Hy).
  remember (JS.atan2 by_ bx) as phi eqn:Hphi. clear Hphi.
  subst bx by_.
  replace (r * cos phi * sin a + r * sin phi * cos a)
    with (r * sin (phi + a)) by (rewrite sin_plus; ring).
  replace (r * cos phi * cos a - r * sin phi * sin a)
    with (r * cos (phi + a)) by (rewrite cos_plus; ring).
  now apply atan2_of_polar_turns.
Qed.

(** C9: when the vector from the rotation origin to the control is not
    null, turning the object by an eighth of a turn moves the quadrant
    number of the control by one, modulo [8]; turning the object by a
    full turn leaves the quadrant number of every control as it was. *)
Theorem findCornerQuadrant_rotation o c :
  (~ nullVector o c ->
     ((findCornerQuadrant (rotateObject (PI / 4) o) c
       - findCornerQuadrant o c - 1) mod 8 = 0)%Z) /\
  findCornerQuadrant (rotateObject (2 * PI) o) c = findCornerQuadrant o c.
Proof.
  split.
  - intros Hnn. rewrite !findCornerQuadrant_octant.
    rewrite vectorFromOrigin_rotateObject, vectorFromOrigin_coordinates.
    cbv zeta. unfold calcVectorRotation, pointOfControl.
    cbn [Point.x Point.y].
    set (bx := Control.x c * (FabricObject.width o * FabricObject.scaleX o)).
    set (by_ := Control.y c
                * (FabricObject.height o * FabricObject.scaleY o)).
    assert (Hnz : bx <> 0 \/ by_ <> 0).
    { destruct (Req_dec bx 0) as [Hx | Hx]; [| now left].
      right. intros Hy. apply Hnn. split; assumption. }
    destruct (rotation_of_turned_vector bx by_ (getTotalAngle o) Hnz)
      as [k Hk].
    destruct (rotation_of_turned_vector bx by_
                (getTotalAngle o + PI / 4) Hnz) as [k' Hk'].
    apply (octantOfRotation_shift _ _ (k' - k));
      try apply atan2_bounds.
    rewrite Hk, Hk', minus_IZR. ring.
  - rewrite !findCornerQuadrant_octant.
    rewrite vectorFromOrigin_rotateObject, vectorFromOrigin_coordinates.
    cbv zeta.
    rewrite cos_plus, sin_plus, cos_2PI, sin_2PI.
    do 2 f_equal. f_equal; ring.
Qed.

End Quadrant.

(** C1: on a box turned by [-PI / 18] (ten degrees counter-clockwise), the
    quadrant number of the middle-right control is [8], outside [0..7]. *)
Theorem findCornerQuadrant_reaches_8 :
  findCornerQuadrant (Sample.box 0 0 (- (PI / 18)) 0 None) Sample.mr = 8%Z.
Proof.
  rewrite findCornerQuadrant_octant, vectorFromOrigin_coordinates.
  cbv zeta. unfold calcVectorRotation.
  cbn [Point.x Point.y pointOfControl Sample.mr Control.x Control.y
       Sample.box FabricObject.width FabricObject.height
       FabricObject.scaleX FabricObject.scaleY getTotalAngle
       FabricObject.angle FabricObject.group].
  pose proof PI_RGT_0 as Hpi.
  replace (- (PI / 18) + 0) with (- (PI / 18)) by ring.
  set (a := - (PI / 18)).
  replace (1 / 2 * (100 * 1) * sin a + 0 * (100 * 1) * cos a)
    with (50 * sin a) by field.
  replace (1 / 2 * (100 * 1) * cos a - 0 * (100 * 1) * sin a)
    with (50 * cos a) by field.
  rewrite atan2_of_polar by (unfold a; lra).
  apply octantOfRotation_last. unfold a. lra.
Qed.

Lemma findCornerQuadrant_rotation_witness :
  ((findCornerQuadrant (rotateObject (PI / 4) (Sample.box 0 0 0 0 None))
      Sample.br
    - findCornerQuadrant (Sample.box 0 0 0 0 None) Sample.br - 1) mod 8
   = 0)%Z.
Proof.
  apply (proj1 (findCornerQuadrant_rotation
                  (Sample.box 0 0 0 0 None) Sample.br)).
  unfold nullVector. simpl. lra.
Defined.

(** C9 as stated fails on a box without extent: the quadrant number of its
    bottom-right control is [0] before and after an eighth of a turn. *)
Lemma findCornerQuadrant_rotation_null_vector :
  findCornerQuadrant (Sample.dot 0) Sample.br = 0%Z /\
  findCornerQuadrant (rotateObject (PI / 4) (Sample.dot 0)) Sample.br = 0%Z /\
  ((findCornerQuadrant (rotateObject (PI / 4) (Sample.dot 0)) Sample.br
    - findCornerQuadrant (Sample.dot 0) Sample.br - 1) mod 8 <> 0)%Z.
Proof.
  assert (H0 : octantOfRotation (JS.atan2 0 0) = 0%Z).
  { pose proof PI_RGT_0 as Hpi.
    unfold JS.atan2.
    destruct (Rlt_dec 0 0) as [H | _]; [lra |].
    unfold octantOfRotation, twoMathPi, PIBy4, JS.round.
    rewrite rem_above by lra.
    apply floor_unique. simpl.
    replace ((0 + 2 * PI - 2 * PI) / (PI / 4)) with 0 by (field; lra).
    lra. }
  assert (Hv : forall a : R,
             findCornerQuadrant (rotateObject a (Sample.dot 0)) Sample.br
             = 0%Z).
  { intros a.
    rewrite findCornerQuadrant_octant, vectorFromOrigin_rotateObject.
    cbv zeta. unfold calcVectorRotation.
    cbn [Point.x Point.y pointOfControl Sample.br Control.x Control.y
         Sample.dot FabricObject.width FabricObject.height
         FabricObject.scaleX FabricObject.scaleY].
    match goal with |- octantOfRotation (JS.atan2 ?u ?v) = _ =>
      replace u with 0 by ring; replace v with 0 by ring end.
    exact H0. }
  assert (Hd : findCornerQuadrant (Sample.dot 0) Sample.br = 0%Z).
  { rewrite findCornerQuadrant_octant, vectorFromOrigin_coordinates.
    cbv zeta. unfold calcVectorRotation.
    cbn [Point.x Point.y pointOfControl Sample.br Control.x Control.y
         Sample.dot FabricObject.width FabricObject.height
         FabricObject.scaleX FabricObject.scaleY].
    match goal with |- octantOfRotation (JS.atan2 ?u ?v) = _ =>
      replace u with 0 by ring; replace v with 0 by ring end.
    exact H0. }
  split; [exact Hd |]. split; [apply Hv |].
  rewrite Hv, Hd. discriminate.
Qed.

(** ** Translations *)

Section Translation.

Context {Res : Type}.

Implicit Types (target : FabricObject Res) (tr : Transform Res).






End Translation.


(** *** Targets inside a group *)

Lemma truthy_nonzero (r : R) : r <> 0 -> JS.truthy r = true.
Proof.
  intros H. unfold JS.truthy.
  destruct (Req_dec_T r 0); [contradiction | reflexivity].
Qed.

Lemma truthy_zero (r : R) : r = 0 -> JS.truthy r = false.
Proof.
  intros H. unfold JS.truthy.
  destruct (Req_dec_T r 0); [reflexivity | contradiction].
Qed.

(** Evaluates [normalizePoint] on [Sample.nested], on [Sample.grouped] and
    on their translates. *)
Ltac eval_nested :=
  unfold normalizePoint;
  cbn [Sample.nested Sample.grouped Sample.box
       translateAll translateRoot translateObject
       FabricObject.set_position FabricObject.set_group
       FabricObject.left FabricObject.top
       FabricObject.width FabricObject.height
       FabricObject.scaleX FabricObject.scaleY
       FabricObject.skewX FabricObject.skewY
       FabricObject.padding FabricObject.canvas FabricObject.controls
       FabricObject.lockMovementX FabricObject.lockMovementY
       FabricObject.lockRotation
       FabricObject.lockScalingX FabricObject.lockScalingY
       FabricObject.lockSkewingX FabricObject.lockSkewingY
       FabricObject.lockScalingFlip
       getTotalAngle FabricObject.angle FabricObject.group
       fmap option_fmap option_map calcTransformMatrix Point.x Point.y];
  first [ rewrite truthy_nonzero by (pose proof PI_RGT_0; lra)
        | rewrite truthy_zero by lra ];
  replace (PI + (0 + 0)) with PI by ring;
  unfold Point.subtract, Point.rotate, sendPointToPlane, getXY,
    getRelativeCenterPoint, Point.add, Mat.transformPoint, Mat.multiply,
    Mat.invert, Mat.linear, calcOwnMatrix, Mat.compose;
  cbn;
  rewrite ?cos_neg, ?sin_neg, ?cos_PI, ?sin_PI, ?cos_0, ?sin_0;
  f_equal; first [lra | field].

Lemma normalizePoint_nested :
  normalizePoint Sample.nested (Point.mk 0 0) OCenter OCenter
  = Point.mk 0 0.
Proof. eval_nested. Qed.

Lemma normalizePoint_nested_translateAll :
  normalizePoint (translateAll (Point.mk 10 0) Sample.nested)
    (Point.mk (0 + 10) (0 + 0)) OCenter OCenter
  = Point.mk 10 0.
Proof. eval_nested. Qed.

Lemma normalizePoint_nested_translateRoot :
  normalizePoint (translateRoot (Point.mk 10 0) Sample.nested)
    (Point.mk (0 + 10) (0 + 0)) OCenter OCenter
  = Point.mk 0 0.
Proof. eval_nested. Qed.



(** Without padding and without control offset, [getLocalPoint] returns
    the normalized point. *)
Lemma getLocalPoint_no_padding {Res : Type} (tr : Transform Res)
    originX originY (x y : R) (control : Control Res) (n : Point) :
  FabricObject.controls (Transform.target tr) !! Transform.corner tr
  = Some control ->
  FabricObject.padding (Transform.target tr) = 0 ->
  Control.offsetX control = 0 -> Control.offsetY control = 0 ->
  normalizePoint (Transform.target tr) (Point.mk x y) originX originY = n ->
  getLocalPoint tr originX originY x y = Returns n.
Proof.
  intros Hc Hp Hx Hy Hn.
  rewrite (getLocalPoint_closed_form tr originX originY x y control Hc).
  cbv zeta. rewrite Hn, Hp, Hx, Hy.
  destruct n as [nx ny]. cbn [Point.x Point.y].
  replace (0 / zoomOf (Transform.target tr)) with 0 by (unfold Rdiv; ring).
  f_equal.
  destruct (Rge_dec nx 0); destruct (Rge_dec ny 0);
    repeat match goal with |- context [Rle_dec ?a ?b] =>
      destruct (Rle_dec a b) end;
    f_equal; lra.
Qed.

(** The box turned by half a turn inside the identity group: moving the
    box, the group and the world point by [(10, 0)] moves the local point
    to [(10, 0)]; moving the group and the world point alone leaves it
    where it was, the two terms of the shift cancelling at half a turn. *)
Lemma getLocalPoint_nested_values :
  getLocalPoint (Sample.gesture Sample.nested "br") OCenter OCenter 0 0
  = Returns (Point.mk 0 0) /\
  getLocalPoint
    (retarget (Sample.gesture Sample.nested "br")
       (translateAll (Point.mk 10 0) Sample.nested))
    OCenter OCenter (0 + 10) (0 + 0)
  = Returns (Point.mk 10 0) /\
  getLocalPoint
    (retarget (Sample.gesture Sample.nested "br")
       (translateRoot (Point.mk 10 0) Sample.nested))
    OCenter OCenter (0 + 10) (0 + 0)
  = Returns (Point.mk 0 0).
Proof.
  repeat split;
    apply (getLocalPoint_no_padding _ _ _ _ _ Sample.br); try reflexivity.
  - apply normalizePoint_nested.
  - apply normalizePoint_nested_translateAll.
  - apply normalizePoint_nested_translateRoot.
Qed.


(** ** What the control utilities write *)

Section Frames.

Context {Ev Res : Type} `{!ActionNameCall Ev Res}.

Implicit Types (h base : Store.heap Res) (l t : positive).

Lemma keeps_refl h : Store.keeps h h.
Proof. split; reflexivity. Qed.

Lemma keeps_new_in base h l :
  Store.keeps base h -> l ∉ dom (Store.points h) -> Store.new_in base l.
Proof.
  intros [_ Hsub] Hl Hin. apply Hl.
  apply (subseteq_dom _ _ Hsub). exact Hin.
Qed.

Lemma keeps_insert base h l (p : Point) :
  Store.keeps base h -> Store.new_in base l ->
  Store.keeps base
    (Store.mkHeap (Store.objects h) (<[l := p]> (Store.points h))).
Proof.
  intros [Ho Hsub] Hl. split; [exact Ho |]. simpl.
  apply insert_subseteq_r; [| exact Hsub].
  now apply not_elem_of_dom.
Qed.

Lemma frames_ret {A : Type} base (a : A) (Q : A -> Prop) :
  Q a -> Store.frames base (Store.ret a) Q.
Proof.
  intros HQ h Hk. split; [exact Hk |].
  simpl. intros a' E. now inversion E; subst.
Qed.

Lemma frames_throw {A : Type} base (Q : A -> Prop) :
  Store.frames base Store.throw Q.
Proof. intros h Hk. split; [exact Hk |]. simpl. discriminate. Qed.

Lemma frames_bind {A B : Type} base (m : Store.M Res A)
    (k : A -> Store.M Res B) (Q : A -> Prop) (Q' : B -> Prop) :
  Store.frames base m Q ->
  (forall a, Q a -> Store.frames base (k a) Q') ->
  Store.frames base (Store.bind m k) Q'.
Proof.
  intros Hm Hk h Hh. unfold Store.bind.
  destruct (Hm h Hh) as [Hkeep HQ].
  destruct (m h) as [[a |] h'] eqn:E; simpl in *.
  - apply (Hk a (HQ a eq_refl) h' Hkeep).
  - split; [exact Hkeep | discriminate].
Qed.

Lemma frames_weaken {A : Type} base (m : Store.M Res A) (Q Q' : A -> Prop) :
  Store.frames base m Q -> (forall a, Q a -> Q' a) -> Store.frames base m Q'.
Proof.
  intros Hm HQ h Hh. destruct (Hm h Hh) as [Hkeep Hres].
  split; [exact Hkeep | auto].
Qed.

Lemma frames_newPoint base (p : Point) :
  Store.frames base (Store.newPoint p) (Store.new_in base).
Proof.
  intros h Hh. unfold Store.newPoint. simpl.
  assert (Hnew : Store.new_in base (fresh (dom (Store.points h)))).
  { apply (keeps_new_in base h); [exact Hh | apply is_fresh]. }
  split; [now apply keeps_insert |].
  intros a E. now inversion E; subst.
Qed.

Lemma frames_getPoint base l :
  Store.frames base (Store.getPoint l) (fun _ => True).
Proof.
  intros h Hh. unfold Store.getPoint.
  destruct (Store.points h !! l); simpl; auto.
Qed.

Lemma frames_getObject base t :
  Store.frames base (Store.getObject t) (fun _ => True).
Proof.
  intros h Hh. unfold Store.getObject.
  destruct (Store.objects h !! t); simpl; auto.
Qed.

(** An assignment to a point outside the base store keeps the base
    store. *)
Lemma frames_setX base l (v : R) :
  Store.new_in base l -> Store.frames base (Store.setX l v) (fun _ => True).
Proof.
  intros Hl h Hh. unfold Store.setX.
  destruct (Store.points h !! l); simpl; auto using keeps_insert.
Qed.

Lemma frames_setY base l (v : R) :
  Store.new_in base l -> Store.frames base (Store.setY l v) (fun _ => True).
Proof.
  intros Hl h Hh. unfold Store.setY.
  destruct (Store.points h !! l); simpl; auto using keeps_insert.
Qed.

Lemma frames_getX base l : Store.frames base (Store.getX l) (fun _ => True).
Proof.
  eapply frames_bind; [apply frames_getPoint |].
  intros; now apply frames_ret.
Qed.

Lemma frames_getY base l : Store.frames base (Store.getY l) (fun _ => True).
Proof.
  eapply frames_bind; [apply frames_getPoint |].
  intros; now apply frames_ret.
Qed.

(** A method that reads and then allocates its result. *)
Lemma frames_rotate base (p c : positive) (radians : R) :
  Store.frames base (Store.rotate p radians c) (Store.new_in base).
Proof.
  eapply frames_bind; [apply frames_getPoint | intros a _].
  eapply frames_bind; [apply frames_getPoint | intros b _].
  apply frames_newPoint.
Qed.

Lemma frames_subtract base (p q : positive) :
  Store.frames base (Store.subtract p q) (Store.new_in base).
Proof.
  eapply frames_bind; [apply frames_getPoint | intros a _].
  eapply frames_bind; [apply frames_getPoint | intros b _].
  apply frames_newPoint.
Qed.

Lemma frames_getTotalAngle base t :
  Store.frames base (Store.getTotalAngle t) (fun _ => True).
Proof.
  eapply frames_bind; [apply frames_getObject | intros o _].
  now apply frames_ret.
Qed.

Lemma frames_getXY base t originX originY :
  Store.frames base (Store.getXY t originX originY) (Store.new_in base).
Proof.
  eapply frames_bind; [apply frames_getObject | intros o _].
  apply frames_newPoint.
Qed.

Lemma frames_getRelativeCenterPoint base t :
  Store.frames base (Store.getRelativeCenterPoint t) (Store.new_in base).
Proof.
  eapply frames_bind; [apply frames_getObject | intros o _].
  apply frames_newPoint.
Qed.

Lemma frames_groupTransformMatrix base t :
  Store.frames base (Store.groupTransformMatrix t) (fun _ => True).
Proof.
  eapply frames_bind; [apply frames_getObject | intros o _].
  now apply frames_ret.
Qed.

Lemma frames_sendPointToPlane base (p : positive) (from to : option TMat2D) :
  Store.frames base (Store.sendPointToPlane p from to) (Store.new_in base).
Proof.
  eapply frames_bind; [apply frames_getPoint | intros a _].
  apply frames_newPoint.
Qed.

Lemma frames_vectorFromOrigin base (t p : positive) :
  Store.frames base (Store.vectorFromOrigin t p) (Store.new_in base).
Proof.
  eapply frames_bind; [apply frames_getObject | intros o _].
  eapply frames_bind; [apply frames_getPoint | intros a _].
  apply frames_newPoint.
Qed.

Lemma frames_calcVectorRotation base (v : positive) :
  Store.frames base (Store.calcVectorRotation v) (fun _ => True).
Proof.
  eapply frames_bind; [apply frames_getPoint | intros a _].
  now apply frames_ret.
Qed.

(** *** The six utilities *)

Lemma frames_getActionFromCorner base (alreadySelected : bool)
    (corner : string) (e : Ev) t :
  Store.frames base (Store.getActionFromCorner alreadySelected corner e t)
    (fun _ => True).
Proof.
  unfold Store.getActionFromCorner.
  destruct (_ || _); [now apply frames_ret |].
  eapply frames_bind; [apply frames_getObject | intros o _].
  destruct (FabricObject.controls o !! corner);
    [now apply frames_ret | apply frames_throw].
Qed.

Lemma frames_isLocked base t (lockingKey : LockingKey) :
  Store.frames base (Store.isLocked t lockingKey) (fun _ => True).
Proof.
  eapply frames_bind; [apply frames_getObject | intros o _].
  now apply frames_ret.
Qed.

Lemma frames_commonEventInfo base (eventData : Ev)
    (transform : Store.Transform) (x y : R) :
  Store.frames base (Store.commonEventInfo eventData transform x y)
    (fun info => Store.new_in base (Store.BasicTransformEvent.pointer info)).
Proof.
  eapply frames_bind; [apply frames_newPoint | intros l Hl].
  now apply frames_ret.
Qed.

Lemma frames_findCornerQuadrant base t (control : Control Res) :
  Store.frames base (Store.findCornerQuadrant t control) (fun _ => True).
Proof.
  eapply frames_bind; [apply frames_newPoint | intros c _].
  eapply frames_bind; [apply frames_vectorFromOrigin | intros v _].
  eapply frames_bind; [apply frames_calcVectorRotation | intros r _].
  now apply frames_ret.
Qed.

(** [normalizePoint] writes nothing and returns a new point, whether or
    not the rotation is skipped. *)
Lemma frames_normalizePoint base (t point : positive) originX originY :
  Store.frames base (Store.normalizePoint t point originX originY)
    (Store.new_in base).
Proof.
  eapply frames_bind; [apply frames_getTotalAngle | intros angle _].
  eapply frames_bind; [apply frames_getXY | intros xy _].
  eapply frames_bind; [apply frames_groupTransformMatrix | intros m _].
  eapply frames_bind; [apply frames_sendPointToPlane | intros p _].
  eapply (frames_bind _ _ _ (fun _ => True)).
  - destruct (JS.truthy angle); [| now apply frames_ret].
    eapply frames_bind; [apply frames_getRelativeCenterPoint | intros c _].
    eapply frames_weaken; [apply frames_rotate | auto].
  - intros p2 _. apply frames_subtract.
Qed.

(** [getLocalPoint] assigns only to the point [normalizePoint] returned,
    and returns that point. *)
Lemma frames_getLocalPoint base (tr : Store.Transform) originX originY
    (x y : R) :
  Store.frames base (Store.getLocalPoint tr originX originY x y)
    (Store.new_in base).
Proof.
  eapply frames_bind; [apply frames_getObject | intros o _]. cbv zeta.
  eapply frames_bind; [apply frames_newPoint | intros pt _].
  eapply frames_bind; [apply frames_normalizePoint | intros lp Hlp].
  eapply frames_bind; [apply frames_getX | intros lx _].
  eapply (frames_bind _ _ _ (fun _ => True)).
  { destruct (Rge_dec _ _); [now apply frames_setX | now apply frames_ret]. }
  intros _ _.
  eapply frames_bind; [apply frames_getX | intros lx' _].
  eapply (frames_bind _ _ _ (fun _ => True)).
  { destruct (Rle_dec _ _); [now apply frames_setX | now apply frames_ret]. }
  intros _ _.
  eapply frames_bind; [apply frames_getY | intros ly _].
  eapply (frames_bind _ _ _ (fun _ => True)).
  { destruct (Rge_dec _ _); [now apply frames_setY | now apply frames_ret]. }
  intros _ _.
  eapply frames_bind; [apply frames_getY | intros ly' _].
  eapply (frames_bind _ _ _ (fun _ => True)).
  { destruct (Rle_dec _ _); [now apply frames_setY | now apply frames_ret]. }
  intros _ _.
  destruct (FabricObject.controls o !! Store.corner tr);
    [| apply frames_throw].
  eapply frames_bind; [apply frames_getX | intros lx'' _].
  eapply frames_bind; [now apply frames_setX | intros _ _].
  eapply frames_bind; [apply frames_getY | intros ly'' _].
  eapply frames_bind; [now apply frames_setY | intros _ _].
  now apply frames_ret.
Qed.

Lemma frames_run {A : Type} h (m : Store.M Res A) (Q : A -> Prop) :
  Store.frames h m Q ->
  Store.keeps h (m h).2 /\
  match (m h).1 with
  | Returns a => Q a
  | Throws => True
  end.
Proof.
  intros Hm. destruct (Hm h (keeps_refl h)) as [Hk HQ].
  split; [exact Hk |].
  destruct (m h).1; [now apply HQ | exact I].
Qed.

(** C10: run from any store, each of the six utilities leaves every
    object of the store as it was (all the attributes of the target, its
    locks, its group and its controls) and leaves every point of the store
    as it was; the point [getLocalPoint] returns, like the point
    [normalizePoint] returns and the pointer of [commonEventInfo], is at
    an address the store did not hold before the call. *)
Theorem control_utilities_read_only (h : Store.heap Res) :
  (forall (alreadySelected : bool) (corner : string) (e : Ev) t,
      Store.keeps h
        (Store.getActionFromCorner alreadySelected corner e t h).2) /\
  (forall t (lockingKey : LockingKey),
      Store.keeps h (Store.isLocked t lockingKey h).2) /\
  (forall (eventData : Ev) (transform : Store.Transform) (x y : R),
      let r := Store.commonEventInfo eventData transform x y h in
      Store.keeps h r.2 /\
      match r.1 with
      | Returns info =>
          Store.new_in h (Store.BasicTransformEvent.pointer info)
      | Throws => True
      end) /\
  (forall t (control : Control Res),
      Store.keeps h (Store.findCornerQuadrant t control h).2) /\
  (forall (t point : positive) (originX : TOriginX) (originY : TOriginY),
      let r := Store.normalizePoint t point originX originY h in
      Store.keeps h r.2 /\
      match r.1 with
      | Returns l => Store.new_in h l
      | Throws => True
      end) /\
  (forall (tr : Store.Transform) (originX : TOriginX) (originY : TOriginY)
          (x y : R),
      let r := Store.getLocalPoint tr originX originY x y h in
      Store.keeps h r.2 /\
      match r.1 with
      | Returns l => Store.new_in h l
      | Throws => True
      end).
Proof.
  split; [| split; [| split; [| split; [| split]]]]; intros.
  - apply (frames_run h _ _ (frames_getActionFromCorner h _ _ _ _)).
  - apply (frames_run h _ _ (frames_isLocked h _ _)).
  - apply (frames_run h _ _ (frames_commonEventInfo h _ _ _ _)).
  - apply (frames_run h _ _ (frames_findCornerQuadrant h _ _)).
  - apply (frames_run h _ _ (frames_normalizePoint h _ _ _ _)).
  - apply (frames_run h _ _ (frames_getLocalPoint h _ _ _ _ _)).
Qed.

End Frames.

(** ** The store-level utilities compute what the value-level ones do *)

Section Runs.

Context {Ev Res : Type} `{!ActionNameCall Ev Res}.

Implicit Types (h : Store.heap Res) (l t : positive).

Lemma wp_ret {A : Type} (a : A) h Q :
  Q (Returns a) h -> Store.wp (Store.ret a) h Q.
Proof. intros HQ. constructor. exact HQ. Qed.

Lemma wp_throw {A : Type} h (Q : outcome A -> Store.heap Res -> Prop) :
  Q Throws h -> Store.wp Store.throw h Q.
Proof. intros HQ. constructor. exact HQ. Qed.

Lemma wp_bind {A B : Type} (m : Store.M Res A) (k : A -> Store.M Res B) h Q :
  Store.wp m h
    (fun r h1 =>
       match r with
       | Returns a => Store.wp (k a) h1 Q
       | Throws => Q Throws h1
       end) ->
  Store.wp (Store.bind m k) h Q.
Proof.
  intros [H]. constructor. unfold Store.bind.
  destruct (m h) as [[a |] h1]; simpl in *; [destruct H |]; auto.
Qed.

Lemma wp_getObject h t (o : FabricObject Res) Q :
  Store.objects h !! t = Some o -> Q (Returns o) h ->
  Store.wp (Store.getObject t) h Q.
Proof.
  intros E HQ. constructor. unfold Store.getObject. rewrite E. exact HQ.
Qed.

Lemma wp_getPoint h l (p : Point) Q :
  Store.points h !! l = Some p -> Q (Returns p) h ->
  Store.wp (Store.getPoint l) h Q.
Proof.
  intros E HQ. constructor. unfold Store.getPoint. rewrite E. exact HQ.
Qed.

Lemma wp_newPoint h (p : Point) Q :
  (forall l, Store.points h !! l = None ->
     Q (Returns l)
       (Store.mkHeap (Store.objects h) (<[l := p]> (Store.points h)))) ->
  Store.wp (Store.newPoint p) h Q.
Proof.
  intros HQ. constructor. apply HQ. apply not_elem_of_dom, is_fresh.
Qed.

Lemma wp_setX h l (p : Point) (v : R) Q :
  Store.points h !! l = Some p ->
  Q (Returns tt)
    (Store.mkHeap (Store.objects h)
       (<[l := Point.set_x p v]> (Store.points h))) ->
  Store.wp (Store.setX l v) h Q.
Proof.
  intros E HQ. constructor. unfold Store.setX. rewrite E. exact HQ.
Qed.

Lemma wp_setY h l (p : Point) (v : R) Q :
  Store.points h !! l = Some p ->
  Q (Returns tt)
    (Store.mkHeap (Store.objects h)
       (<[l := Point.set_y p v]> (Store.points h))) ->
  Store.wp (Store.setY l v) h Q.
Proof.
  intros E HQ. constructor. unfold Store.setY. rewrite E. exact HQ.
Qed.

Lemma wp_getX h l (p : Point) Q :
  Store.points h !! l = Some p -> Q (Returns (Point.x p)) h ->
  Store.wp (Store.getX l) h Q.
Proof.
  intros E HQ. apply wp_bind, (wp_getPoint _ _ p); auto. now apply wp_ret.
Qed.

Lemma wp_getY h l (p : Point) Q :
  Store.points h !! l = Some p -> Q (Returns (Point.y p)) h ->
  Store.wp (Store.getY l) h Q.
Proof.
  intros E HQ. apply wp_bind, (wp_getPoint _ _ p); auto. now apply wp_ret.
Qed.

(** A guarded assignment, without a case analysis on the guard. *)
Lemma wp_guarded_setX {P1 P2 : Prop} (c : {P1} + {P2}) h l (p : Point)
    (v : R) (Q : outcome unit -> Store.heap Res -> Prop) :
  Store.points h !! l = Some p ->
  (forall h1, Store.objects h1 = Store.objects h ->
     Store.points h1 !! l = Some (if c then Point.set_x p v else p) ->
     Q (Returns tt) h1) ->
  Store.wp (if c then Store.setX l v else Store.ret tt) h Q.
Proof.
  intros E HQ. destruct c.
  - apply (wp_setX _ _ p); [exact E |]. apply HQ; [reflexivity |].
    apply lookup_insert_eq.
  - apply wp_ret. now apply HQ.
Qed.

Lemma wp_guarded_setY {P1 P2 : Prop} (c : {P1} + {P2}) h l (p : Point)
    (v : R) (Q : outcome unit -> Store.heap Res -> Prop) :
  Store.points h !! l = Some p ->
  (forall h1, Store.objects h1 = Store.objects h ->
     Store.points h1 !! l = Some (if c then Point.set_y p v else p) ->
     Q (Returns tt) h1) ->
  Store.wp (if c then Store.setY l v else Store.ret tt) h Q.
Proof.
  intros E HQ. destruct c.
  - apply (wp_setY _ _ p); [exact E |]. apply HQ; [reflexivity |].
    apply lookup_insert_eq.
  - apply wp_ret. now apply HQ.
Qed.

(** A point allocated at an unused address leaves the other points where
    they are. *)
Lemma lookup_insert_unused (m : gmap positive Point) l l' (p q : Point) :
  m !! l = None -> m !! l' = Some p -> <[l := q]> m !! l' = Some p.
Proof.
  intros Hn Hs. rewrite lookup_insert_ne; [exact Hs | congruence].
Qed.

Ltac wp_lookup :=
  cbn [Store.objects Store.points];
  first [ eassumption
        | apply lookup_insert_eq
        | apply lookup_insert_unused; [assumption | wp_lookup] ].

Ltac wp_step :=
  lazymatch goal with
  | |- Store.wp (Store.bind _ _) _ _ => apply wp_bind
  | |- Store.wp (Store.ret _) _ _ => apply wp_ret
  | |- Store.wp Store.throw _ _ => apply wp_throw
  | |- Store.wp (Store.getObject _) _ _ =>
      eapply wp_getObject; [eassumption |]
  | |- Store.wp (Store.getPoint _) _ _ => eapply wp_getPoint; [wp_lookup |]
  | |- Store.wp (Store.getX _) _ _ => eapply wp_getX; [wp_lookup |]
  | |- Store.wp (Store.getY _) _ _ => eapply wp_getY; [wp_lookup |]
  | |- Store.wp (Store.setX _ _) _ _ => eapply wp_setX; [wp_lookup |]
  | |- Store.wp (Store.setY _ _) _ _ => eapply wp_setY; [wp_lookup |]
  | |- Store.wp (Store.newPoint _) _ _ =>
      apply wp_newPoint; cbn [Store.objects Store.points]; intros ? ?
  | |- Store.wp (if _ then Store.setX _ _ else Store.ret tt) _ _ =>
      eapply wp_guarded_setX; [wp_lookup | intros ? ? ?]
  | |- Store.wp (if _ then Store.setY _ _ else Store.ret tt) _ _ =>
      eapply wp_guarded_setY; [wp_lookup | intros ? ? ?]
  | |- Store.wp (if ?c then _ else _) _ _ => destruct c
  | |- Store.wp (match ?c with Some _ => _ | None => _ end) _ _ =>
      destruct c eqn:?
  end.

(** [Store.normalizePoint] returns the address of a point that holds what
    [normalizePoint] computes from the object and the point read. *)
Lemma wp_normalizePoint h (t pt : positive) (o : FabricObject Res)
    (p : Point) originX originY Q :
  Store.objects h !! t = Some o -> Store.points h !! pt = Some p ->
  (forall l h', Store.objects h' = Store.objects h ->
     Store.points h' !! l = Some (normalizePoint o p originX originY) ->
     Q (Returns l) h') ->
  Store.wp (Store.normalizePoint t pt originX originY) h Q.
Proof.
  intros Ho Hp HQ. unfold Store.normalizePoint, normalizePoint in *.
  unfold Store.getTotalAngle, Store.getXY, Store.groupTransformMatrix,
    Store.sendPointToPlane.
  repeat wp_step.
  all: unfold Store.getRelativeCenterPoint, Store.rotate, Store.subtract;
    repeat wp_step;
    (apply HQ; [reflexivity | wp_lookup]).
Qed.

(** [Store.getLocalPoint] throws when [getLocalPoint] throws, and
    otherwise returns the address of a point that holds the point
    [getLocalPoint] returns. *)
Lemma wp_getLocalPoint h (tr : Store.Transform) (o : FabricObject Res)
    originX originY (x y : R) (action : string) oX oY :
  Store.objects h !! Store.target tr = Some o ->
  Store.wp (Store.getLocalPoint tr originX originY x y) h
    (fun r h' =>
       match r,
             getLocalPoint (Transform.mk o (Store.corner tr) action oX oY)
               originX originY x y
       with
       | Returns l, Returns p => Store.points h' !! l = Some p
       | Throws, Throws => True
       | _, _ => False
       end).
Proof.
  intros Ho.
  remember (getLocalPoint _ originX originY x y) as pure eqn:Hpure.
  unfold getLocalPoint in Hpure.
  cbn [Transform.target Transform.corner] in Hpure.
  unfold Store.getLocalPoint.
  do 2 wp_step. cbv zeta.
  do 3 wp_step.
  eapply wp_normalizePoint; [eassumption | wp_lookup |].
  intros lp h' Hobj Hlp.
  repeat wp_step.
  - subst pure. wp_lookup.
  - subst pure. exact I.
Qed.

(** [Store.findCornerQuadrant] returns the quadrant [findCornerQuadrant]
    computes. *)
Lemma wp_findCornerQuadrant h t (o : FabricObject Res)
    (control : Control Res) :
  Store.objects h !! t = Some o ->
  Store.wp (Store.findCornerQuadrant t control) h
    (fun r _ => r = Returns (findCornerQuadrant o control)).
Proof.
  intros Ho. unfold Store.findCornerQuadrant, Store.vectorFromOrigin,
    Store.calcVectorRotation.
  repeat wp_step. reflexivity.
Qed.

(** [Store.getActionFromCorner] answers as [getActionFromCorner] does. *)
Lemma wp_getActionFromCorner h (alreadySelected : bool) (corner : string)
    (e : Ev) t (o : FabricObject Res) :
  Store.objects h !! t = Some o ->
  Store.wp (Store.getActionFromCorner alreadySelected corner e t) h
    (fun r _ => r = getActionFromCorner alreadySelected corner e o).
Proof.
  intros Ho. unfold Store.getActionFromCorner, getActionFromCorner.
  destruct (_ || _); repeat wp_step; reflexivity.
Qed.

End Runs.

(** * Further properties *)

(** ** Zoom and padding *)

Section Padding.

Context {Res : Type}.

Implicit Types (target : FabricObject Res) (tr : Transform Res).

(** X3: the zoom read by [getLocalPoint] is never zero: it is the zoom of
    the canvas, and [1] without a canvas or for a canvas at zoom [0]. *)
Theorem zoomOf_nonzero target :
  zoomOf target <> 0 /\
  match FabricObject.canvas target with
  | Some cv =>
      zoomOf target = Canvas.getZoom cv \/
      (Canvas.getZoom cv = 0 /\ zoomOf target = 1)
  | None => zoomOf target = 1
  end.
Proof.
  unfold zoomOf, JS.or_else, JS.truthy.
  destruct (FabricObject.canvas target) as [cv |].
  - destruct (Req_dec_T (Canvas.getZoom cv) 0) as [E | E].
    + split; [lra | right; split; [exact E | reflexivity]].
    + split; [exact E | left; reflexivity].
  - split; [lra | reflexivity].
Qed.

(** X4: without padding, [getLocalPoint] returns the normalized point less
    the offsets of the control, at every zoom. *)
Theorem getLocalPoint_zero_padding tr originX originY (x y : R)
    (control : Control Res) :
  FabricObject.padding (Transform.target tr) = 0 ->
  FabricObject.controls (Transform.target tr) !! Transform.corner tr
  = Some control ->
  let n := normalizePoint (Transform.target tr) (Point.mk x y)
             originX originY in
  getLocalPoint tr originX originY x y
  = Returns (Point.mk (Point.x n - Control.offsetX control)
                      (Point.y n - Control.offsetY control)).
Proof.
  intros Hp Hc n.
  rewrite (getLocalPoint_closed_form tr originX originY x y control Hc).
  cbv zeta. fold n. rewrite Hp.
  replace (0 / zoomOf (Transform.target tr)) with 0 by (unfold Rdiv; ring).
  do 2 f_equal.
  - destruct (Rge_dec (Point.x n) 0);
      match goal with |- context [Rle_dec ?a ?b] =>
        destruct (Rle_dec a b) end; lra.
  - destruct (Rge_dec (Point.y n) 0);
      match goal with |- context [Rle_dec ?a ?b] =>
        destruct (Rle_dec a b) end; lra.
Qed.

(** X5: for an effective padding [p = padding / zoom > 0], the x-axis
    collapse pulls an abscissa at or beyond [p] towards the origin by [p],
    on either side, and leaves the abscissas strictly inside [(-p, p)]
    where they are. *)
Theorem getLocalPoint_x_zones tr originX originY (x y : R)
    (control : Control Res) :
  FabricObject.controls (Transform.target tr) !! Transform.corner tr
  = Some control ->
  let p := FabricObject.padding (Transform.target tr)
           / zoomOf (Transform.target tr) in
  0 < p ->
  let u := Point.x (normalizePoint (Transform.target tr) (Point.mk x y)
                      originX originY) in
  exists localPoint : Point,
    getLocalPoint tr originX originY x y = Returns localPoint /\
    (p <= u -> Point.x localPoint = u - p - Control.offsetX control) /\
    (u <= - p -> Point.x localPoint = u + p - Control.offsetX control) /\
    (- p < u < p -> Point.x localPoint = u - Control.offsetX control).
Proof.
  intros Hc p Hp u.
  eexists. split; [apply (getLocalPoint_closed_form tr _ _ _ _ control Hc) |].
  cbv zeta. fold p u. cbn [Point.x Point.y].
  destruct (Rge_dec u p);
    match goal with |- context [Rle_dec ?a (- p)] =>
      destruct (Rle_dec a (- p)) end;
    repeat split; intros; lra.
Qed.

(** X6: the padding and the zoom enter [getLocalPoint] through their
    quotient only: a target with padding [k * P] on a canvas at zoom [k]
    gets the local point of the same target with padding [P] on no
    canvas. *)
Theorem getLocalPoint_zoom_scaling tr originX originY (x y k P : R) :
  k <> 0 ->
  getLocalPoint
    (retarget tr
       (FabricObject.set_canvas (Some (Canvas.mk k))
          (FabricObject.set_padding (k * P) (Transform.target tr))))
    originX originY x y
  = getLocalPoint
      (retarget tr
         (FabricObject.set_canvas None
            (FabricObject.set_padding P (Transform.target tr))))
      originX originY x y.
Proof.
  intros Hk. destruct tr as [target corner action oX oY].
  destruct target.
  unfold getLocalPoint.
  cbn [retarget Transform.target Transform.corner FabricObject.set_canvas
       FabricObject.set_padding FabricObject.padding FabricObject.controls
       FabricObject.canvas FabricObject.left FabricObject.top
       FabricObject.width FabricObject.height FabricObject.scaleX
       FabricObject.scaleY FabricObject.angle FabricObject.skewX
       FabricObject.skewY FabricObject.group zoomOf Canvas.getZoom
       FabricObject.lockMovementX FabricObject.lockMovementY
       FabricObject.lockRotation FabricObject.lockScalingX
       FabricObject.lockScalingY FabricObject.lockSkewingX
       FabricObject.lockSkewingY FabricObject.lockScalingFlip].
  unfold JS.or_else. rewrite truthy_nonzero by exact Hk.
  replace (k * P / k) with P by (field; exact Hk).
  replace (P / 1) with P by lra.
  reflexivity.
Qed.

End Padding.

(** ** Rotation in [normalizePoint] *)

Section Rotation.

Context {Res : Type}.

Implicit Types (target : FabricObject Res).

Lemma rotate_by_zero (p c : Point) : Point.rotate p (- 0) c = p.
Proof.
  destruct p as [px py]. unfold Point.rotate. cbn [Point.x Point.y].
  rewrite Ropp_0, cos_0, sin_0. f_equal; ring.
Qed.

Lemma rotate_back (p c : Point) (a : R) :
  Point.rotate (Point.rotate p a c) (- a) c = p.
Proof.
  destruct p as [px py]. unfold Point.rotate. cbn [Point.x Point.y].
  rewrite cos_neg, sin_neg.
  pose proof (sin2_cos2 a) as H. unfold Rsqr in H.
  f_equal.
  - transitivity ((px - Point.x c) * (sin a * sin a + cos a * cos a)
                  + Point.x c); [ring | rewrite H; ring].
  - transitivity ((py - Point.y c) * (sin a * sin a + cos a * cos a)
                  + Point.y c); [ring | rewrite H; ring].
Qed.

Lemma truthy_false_zero (r : R) : JS.truthy r = false -> r = 0.
Proof.
  unfold JS.truthy. destruct (Req_dec_T r 0); [auto | discriminate].
Qed.

(** X7: the test on the total angle in [normalizePoint] only skips a
    rotation that would change nothing: for every target the result is the
    point turned back by the total angle around the center, less the
    projected anchor. *)
Theorem normalizePoint_rotation_skip target (point : Point)
    originX originY :
  normalizePoint target point originX originY
  = Point.subtract
      (Point.rotate point (- getTotalAngle target)
         (getRelativeCenterPoint target))
      (sendPointToPlane (getXY target originX originY) None
         (calcTransformMatrix <$> FabricObject.group target)).
Proof.
  unfold normalizePoint.
  destruct (JS.truthy (getTotalAngle target)) eqn:E; [reflexivity |].
  apply truthy_false_zero in E. rewrite E.
  now rewrite rotate_by_zero.
Qed.

(** X8: for a target outside any group, [normalizePoint] undoes the
    rotation of the target: a point of the unrotated frame, turned by the
    angle of the target around its center, is sent to that point less the
    anchor; the turned anchor itself is sent to the null vector. *)
Theorem normalizePoint_undoes_rotation target (q : Point) originX originY :
  FabricObject.group target = None ->
  normalizePoint target
    (Point.rotate q (getTotalAngle target) (getRelativeCenterPoint target))
    originX originY
  = Point.subtract q (getXY target originX originY) /\
  normalizePoint target
    (Point.rotate (getXY target originX originY) (getTotalAngle target)
       (getRelativeCenterPoint target))
    originX originY
  = Point.zero.
Proof.
  intros Hg.
  assert (H : forall p : Point,
             normalizePoint target
               (Point.rotate p (getTotalAngle target)
                  (getRelativeCenterPoint target)) originX originY
             = Point.subtract p (getXY target originX originY)).
  { intros p. rewrite normalizePoint_ungrouped by exact Hg.
    destruct (JS.truthy (getTotalAngle target)) eqn:E.
    - now rewrite rotate_back.
    - apply truthy_false_zero in E. rewrite E.
      pose proof (rotate_back p (getRelativeCenterPoint target) 0) as Hb.
      rewrite rotate_by_zero in Hb. now rewrite Hb. }
  split; [apply H |].
  rewrite H. unfold Point.subtract, Point.zero. f_equal; ring.
Qed.

End Rotation.

Lemma getLocalPoint_zero_padding_witness :
  getLocalPoint (Sample.gesture (Sample.box 100 100 0 0 None) "mtr")
    OCenter OCenter 150 150
  = Returns (Point.mk (50 - 0) (50 - - 40)).
Proof.
  rewrite (getLocalPoint_zero_padding
             (Sample.gesture (Sample.box 100 100 0 0 None) "mtr")
             OCenter OCenter 150 150 Sample.mtr eq_refl eq_refl).
  cbn [Sample.gesture Transform.target].
  rewrite normalizePoint_box_at_rest.
  cbn [Point.x Point.y Sample.mtr Control.offsetX Control.offsetY].
  do 2 f_equal; lra.
Defined.

Lemma getLocalPoint_x_zones_witness :
  exists localPoint : Point,
    getLocalPoint (Sample.gesture (Sample.box 0 0 0 10 None) "br")
      OCenter OCenter (- 25) 0 = Returns localPoint /\
    Point.x localPoint = - 25 + 10 / 1 - 0.
Proof.
  destruct (getLocalPoint_x_zones
              (Sample.gesture (Sample.box 0 0 0 10 None) "br")
              OCenter OCenter (- 25) 0 Sample.br eq_refl)
    as (lp & Heq & _ & Hneg & _).
  - cbn [Sample.gesture Transform.target Sample.box FabricObject.padding
         zoomOf FabricObject.canvas]. lra.
  - exists lp. split; [exact Heq |].
    cbn [Sample.gesture Transform.target] in Hneg.
    rewrite normalizePoint_box_at_rest in Hneg.
    cbn [Point.x Sample.box FabricObject.padding zoomOf FabricObject.canvas
         Sample.br Control.offsetX] in Hneg.
    rewrite Hneg by lra. lra.
Defined.

Lemma getLocalPoint_zoom_scaling_witness :
  getLocalPoint
    (retarget (Sample.gesture (Sample.box 0 0 0 0 None) "br")
       (FabricObject.set_canvas (Some (Canvas.mk 2))
          (FabricObject.set_padding (2 * 10) (Sample.box 0 0 0 0 None))))
    OCenter OCenter 30 0
  = getLocalPoint
      (retarget (Sample.gesture (Sample.box 0 0 0 0 None) "br")
         (FabricObject.set_canvas None
            (FabricObject.set_padding 10 (Sample.box 0 0 0 0 None))))
      OCenter OCenter 30 0.
Proof.
  apply (getLocalPoint_zoom_scaling
           (Sample.gesture (Sample.box 0 0 0 0 None) "br")
           OCenter OCenter 30 0 2 10).
  lra.
Defined.

Lemma normalizePoint_undoes_rotation_witness :
  normalizePoint (Sample.box 100 100 (PI / 4) 0 None)
    (Point.rotate (Point.mk 150 100)
       (getTotalAngle (Sample.box 100 100 (PI / 4) 0 None))
       (getRelativeCenterPoint (Sample.box 100 100 (PI / 4) 0 None)))
    OCenter OCenter
  = Point.subtract (Point.mk 150 100)
      (getXY (Sample.box 100 100 (PI / 4) 0 None) OCenter OCenter).
Proof.
  exact (proj1 (normalizePoint_undoes_rotation
                  (Sample.box 100 100 (PI / 4) 0 None) (Point.mk 150 100)
                  OCenter OCenter eq_refl)).
Defined.

(** ** The quadrant as a nearest multiple of 45 degrees *)

Lemma floor_eq_iff (r : R) (z : Z) :
  JS.floor r = z <-> IZR z <= r < IZR z + 1.
Proof.
  split; [intros <-; apply floor_spec | apply floor_unique].
Qed.

(** The representative in [[0, 2 PI)] of an angle of [(-PI, PI]]. *)
Lemma rem_full_turn_value (theta : R) :
  - PI < theta <= PI ->
  JS.rem (theta + twoMathPi) twoMathPi
  = if Rlt_dec theta 0 then theta + 2 * PI else theta.
Proof.
  intros Ht. pose proof PI_RGT_0 as Hpi. unfold twoMathPi.
  destruct (Rlt_dec theta 0).
  - rewrite rem_below by lra. reflexivity.
  - rewrite rem_above by lra. lra.
Qed.

Lemma octantOfRotation_iff (theta : R) (q : Z) :
  - PI < theta <= PI ->
  let a := if Rlt_dec theta 0 then theta + 2 * PI else theta in
  octantOfRotation theta = q <->
  (IZR q - / 2) * (PI / 4) <= a < (IZR q + / 2) * (PI / 4).
Proof.
  intros Ht a. pose proof PI_RGT_0 as Hpi.
  unfold octantOfRotation, JS.round.
  rewrite rem_full_turn_value by exact Ht. fold a.
  rewrite floor_eq_iff. unfold PIBy4.
  assert (E : a = a / (PI / 4) * (PI / 4)) by (field; lra).
  set (t := a / (PI / 4)) in *.
  split; intros [H1 H2]; split; nra.
Qed.

Section QuadrantFacts.

Context {Res : Type}.

Implicit Types (o : FabricObject Res) (c : Control Res).

(** X10: the quadrant number of a control is [q] exactly when the angle of
    its vector, taken in [[0, 2 PI)], lies within half an eighth of a turn
    of [q] eighths of a turn, the lower end included. *)
Theorem findCornerQuadrant_nearest o c (q : Z) :
  let theta :=
    calcVectorRotation (vectorFromOrigin o (pointOfControl c)) in
  let a := if Rlt_dec theta 0 then theta + 2 * PI else theta in
  findCornerQuadrant o c = q <->
  (IZR q - / 2) * (PI / 4) <= a < (IZR q + / 2) * (PI / 4).
Proof.
  intros theta a. rewrite findCornerQuadrant_octant.
  apply octantOfRotation_iff, atan2_bounds.
Qed.

(** X11: the directions next to the positive x-axis are split between two
    quadrant numbers: the number is [0] exactly for the angles of
    [[0, PI / 8)], and [8] exactly for the angles of [[- PI / 8, 0)]. *)
Theorem findCornerQuadrant_east o c :
  let theta :=
    calcVectorRotation (vectorFromOrigin o (pointOfControl c)) in
  (findCornerQuadrant o c = 0%Z <-> 0 <= theta < PI / 8) /\
  (findCornerQuadrant o c = 8%Z <-> - (PI / 8) <= theta < 0).
Proof.
  intros theta. pose proof PI_RGT_0 as Hpi.
  assert (Hb : - PI < theta <= PI) by apply atan2_bounds.
  rewrite !findCornerQuadrant_octant. fold theta.
  rewrite !(octantOfRotation_iff theta _ Hb). cbv zeta.
  destruct (Rlt_dec theta 0); split; split; intros [H1 H2]; split; lra.
Qed.

(** X12: on an object whose total angle is zero and whose box has extent,
    the controls on the axes get the quadrant numbers [0] (right), [2]
    (bottom), [4] (left) and [6] (top). *)
Theorem findCornerQuadrant_axes o c :
  getTotalAngle o = 0 ->
  0 < FabricObject.width o * FabricObject.scaleX o ->
  0 < FabricObject.height o * FabricObject.scaleY o ->
  (0 < Control.x c -> Control.y c = 0 -> findCornerQuadrant o c = 0%Z) /\
  (Control.x c = 0 -> 0 < Control.y c -> findCornerQuadrant o c = 2%Z) /\
  (Control.x c < 0 -> Control.y c = 0 -> findCornerQuadrant o c = 4%Z) /\
  (Control.x c = 0 -> Control.y c < 0 -> findCornerQuadrant o c = 6%Z).
Proof.
  intros Ha Hw Hh. pose proof PI_RGT_0 as Hpi.
  set (w := FabricObject.width o * FabricObject.scaleX o) in *.
  set (hh := FabricObject.height o * FabricObject.scaleY o) in *.
  assert (Hv : calcVectorRotation (vectorFromOrigin o (pointOfControl c))
               = JS.atan2 (Control.y c * hh) (Control.x c * w)).
  { rewrite vectorFromOrigin_coordinates. cbv zeta.
    unfold calcVectorRotation, pointOfControl. cbn [Point.x Point.y].
    rewrite Ha, cos_0, sin_0. fold w hh. f_equal; ring. }
  assert (Hq : forall (theta : R) (q : Z),
             - PI < theta <= PI ->
             (if Rlt_dec theta 0 then theta + 2 * PI else theta)
             = IZR q * (PI / 4) ->
             calcVectorRotation (vectorFromOrigin o (pointOfControl c))
             = theta ->
             findCornerQuadrant o c = q).
  { intros theta q Hb E Et. rewrite findCornerQuadrant_octant, Et.
    apply (octantOfRotation_iff theta q Hb). cbv zeta. rewrite E. nra. }
  repeat split; intros Hx Hy.
  - apply (Hq 0); [lra | destruct (Rlt_dec 0 0); lra |].
    rewrite Hv, Hy. unfold JS.atan2.
    destruct (Rlt_dec 0 (Control.x c * w)) as [_ | N]; [| exfalso; nra].
    replace (0 * hh / (Control.x c * w)) with 0 by (unfold Rdiv; ring).
    apply atan_0.
  - apply (Hq (PI / 2)); [lra | destruct (Rlt_dec (PI / 2) 0); lra |].
    rewrite Hv, Hx. unfold JS.atan2.
    replace (0 * w) with 0 by ring.
    destruct (Rlt_dec 0 0); [lra |].
    destruct (Rlt_dec 0 (Control.y c * hh)) as [_ | N];
      [reflexivity | exfalso; nra].
  - apply (Hq PI); [lra | destruct (Rlt_dec PI 0); lra |].
    rewrite Hv, Hy. unfold JS.atan2.
    destruct (Rlt_dec 0 (Control.x c * w)) as [P | _]; [exfalso; nra |].
    destruct (Rlt_dec (Control.x c * w) 0) as [_ | N]; [| exfalso; nra].
    replace (0 * hh) with 0 by ring.
    destruct (Rle_dec 0 0); [| lra].
    replace (0 / (Control.x c * w)) with 0 by (unfold Rdiv; ring).
    rewrite atan_0. ring.
  - apply (Hq (- (PI / 2)));
      [lra | destruct (Rlt_dec (- (PI / 2)) 0); simpl; lra |].
    rewrite Hv, Hx. unfold JS.atan2.
    replace (0 * w) with 0 by ring.
    destruct (Rlt_dec 0 0); [lra |].
    destruct (Rlt_dec 0 (Control.y c * hh)) as [P | _]; [exfalso; nra |].
    destruct (Rlt_dec (Control.y c * hh) 0) as [_ | N];
      [reflexivity | exfalso; nra].
Qed.

End QuadrantFacts.

Lemma findCornerQuadrant_axes_witness :
  findCornerQuadrant (Sample.box 100 100 0 0 None) Sample.mr = 0%Z /\
  findCornerQuadrant (Sample.box 100 100 0 0 None) Sample.mtr = 6%Z.
Proof.
  assert (Ha : getTotalAngle (Sample.box 100 100 0 0 None) = 0)
    by (simpl; lra).
  assert (Hw : 0 < FabricObject.width (Sample.box 100 100 0 0 None)
                   * FabricObject.scaleX (Sample.box 100 100 0 0 None))
    by (simpl; lra).
  assert (Hh : 0 < FabricObject.height (Sample.box 100 100 0 0 None)
                   * FabricObject.scaleY (Sample.box 100 100 0 0 None))
    by (simpl; lra).
  destruct (findCornerQuadrant_axes (Sample.box 100 100 0 0 None)
              Sample.mr Ha Hw Hh) as (Hr & _).
  destruct (findCornerQuadrant_axes (Sample.box 100 100 0 0 None)
              Sample.mtr Ha Hw Hh) as (_ & _ & _ & Ht).
  split.
  - apply Hr; simpl; lra.
  - apply Ht; simpl; lra.
Defined.

(** ** Inverted origins *)

(** X13: [invertOrigin] sends the offsets of [[-0.5, 0.5]] into [[0, 1]],
    reverses their order, and sends the start, the center and the end to
    [1], [0.5] and [0]. *)
Theorem invertOrigin_range (o o' : TOrigin) :
  (- (1 / 2) <= resolveOrigin o <= 1 / 2 -> 0 <= invertOrigin o <= 1) /\
  (resolveOrigin o < resolveOrigin o' -> invertOrigin o' < invertOrigin o) /\
  invertOrigin OLeft = 1 /\ invertOrigin OTop = 1 /\
  invertOrigin OCenter = 1 / 2 /\
  invertOrigin ORight = 0 /\ invertOrigin OBottom = 0.
Proof.
  unfold invertOrigin. simpl. repeat split; intros; lra.
Qed.

Lemma invertOrigin_range_witness :
  0 <= invertOrigin (ONumber (1 / 4)) <= 1 /\
  invertOrigin ORight < invertOrigin OLeft.
Proof.
  split.
  - apply (proj1 (invertOrigin_range (ONumber (1 / 4)) OCenter)).
    simpl. lra.
  - apply (proj1 (proj2 (invertOrigin_range OLeft ORight))).
    simpl. lra.
Defined.

(** ** Rotations by eighths of a turn *)

Lemma octantOfRotation_shift_eighths (theta theta' : R) (j k : Z) :
  - PI < theta <= PI -> - PI < theta' <= PI ->
  theta' = theta + IZR j * (PI / 4) + 2 * IZR k * PI ->
  ((octantOfRotation theta' - octantOfRotation theta - j) mod 8 = 0)%Z.
Proof.
  intros Ht Ht' E. pose proof PI_RGT_0 as Hpi.
  destruct (rem_full_turn theta Ht) as (m & Hm & _).
  destruct (rem_full_turn theta' Ht') as (m' & Hm' & _).
  unfold octantOfRotation. rewrite Hm, Hm'.
  replace ((theta' + 2 * IZR m' * PI) / PIBy4)
    with ((theta + 2 * IZR m * PI) / PIBy4 + IZR (j + 8 * (k + m' - m))).
  2:{ rewrite E, plus_IZR, mult_IZR, minus_IZR, plus_IZR.
      unfold PIBy4. field. lra. }
  rewrite round_plus_IZR.
  match goal with |- ((?q + ?z - ?q - j) mod 8 = 0)%Z =>
    replace (q + z - q - j)%Z with ((k + m' - m) * 8)%Z by lia end.
  apply Z.mod_mul. lia.
Qed.

(** X14: when the vector from the rotation origin to the control is not
    null, turning the object by [j] eighths of a turn, for any integer [j],
    moves the quadrant number of the control by [j], modulo [8]. *)
Theorem findCornerQuadrant_rotation_eighths {Res : Type}
    (o : FabricObject Res) (c : Control Res) (j : Z) :
  ~ nullVector o c ->
  ((findCornerQuadrant (rotateObject (IZR j * (PI / 4)) o) c
    - findCornerQuadrant o c - j) mod 8 = 0)%Z.
Proof.
  intros Hnn. rewrite !findCornerQuadrant_octant.
  rewrite vectorFromOrigin_rotateObject, vectorFromOrigin_coordinates.
  cbv zeta. unfold calcVectorRotation, pointOfControl.
  cbn [Point.x Point.y].
  set (bx := Control.x c * (FabricObject.width o * FabricObject.scaleX o)).
  set (by_ := Control.y c
              * (FabricObject.height o * FabricObject.scaleY o)).
  assert (Hnz : bx <> 0 \/ by_ <> 0).
  { destruct (Req_dec bx 0) as [Hx | Hx]; [| now left].
    right. intros Hy. apply Hnn. split; assumption. }
  destruct (rotation_of_turned_vector bx by_ (getTotalAngle o) Hnz)
    as [k Hk].
  destruct (rotation_of_turned_vector bx by_
              (getTotalAngle o + IZR j * (PI / 4)) Hnz) as [k' Hk'].
  apply (octantOfRotation_shift_eighths _ _ j (k' - k));
    try apply atan2_bounds.
  rewrite Hk, Hk', minus_IZR. ring.
Qed.

Lemma findCornerQuadrant_rotation_eighths_witness :
  ((findCornerQuadrant
      (rotateObject (IZR 2 * (PI / 4)) (Sample.box 0 0 0 0 None)) Sample.br
    - findCornerQuadrant (Sample.box 0 0 0 0 None) Sample.br - 2) mod 8
   = 0)%Z.
Proof.
  apply (findCornerQuadrant_rotation_eighths
           (Sample.box 0 0 0 0 None) Sample.br 2).
  unfold nullVector. simpl. lra.
Defined.

(** ** The remainder *)

Lemma ceil_spec (r : R) : r <= IZR (JS.ceil r) < r + 1.
Proof.
  unfold JS.ceil. rewrite opp_IZR.
  destruct (floor_spec (- r)). lra.
Qed.

Lemma trunc_IZR (k : Z) : JS.trunc (IZR k) = k.
Proof.
  unfold JS.trunc. destruct (Rle_dec 0 (IZR k)).
  - apply floor_unique. lra.
  - unfold JS.ceil. rewrite <- opp_IZR.
    rewrite (floor_unique (IZR (- k)) (- k)) by lra. lia.
Qed.

(** The remainder is zero exactly on the whole multiples of the divisor. *)
Lemma rem_zero_iff (a b : R) :
  b <> 0 -> JS.rem a b = 0 <-> exists k : Z, a = b * IZR k.
Proof.
  intros Hb. unfold JS.rem. split.
  - intros H. exists (JS.trunc (a / b)). lra.
  - intros [k ->].
    replace (b * IZR k / b) with (IZR k) by (field; exact Hb).
    rewrite trunc_IZR. ring.
Qed.

(** The remainder has the sign of the dividend and is smaller than the
    divisor. *)
Lemma rem_sign (a b : R) :
  0 < b ->
  (0 <= a -> 0 <= JS.rem a b < b) /\ (a <= 0 -> - b < JS.rem a b <= 0).
Proof.
  intros Hb. unfold JS.rem, JS.trunc.
  assert (E : a = a / b * b) by (field; lra).
  set (t := a / b) in *.
  split; intros Ha.
  - assert (Ht : 0 <= t).
    { destruct (Rle_dec 0 t); [assumption | exfalso; nra]. }
    destruct (Rle_dec 0 t); [| lra].
    destruct (floor_spec t). split; nra.
  - destruct (Rle_dec 0 t) as [Ht | Ht].
    + assert (t = 0) by nra.
      rewrite (floor_unique t 0) by (simpl; lra). simpl. split; nra.
    + destruct (ceil_spec t). split; nra.
Qed.

(** ** The markup of a circle *)

Section CircleMarkup.

Variables (degreesToRadians cos sin : R -> R).

Implicit Types (this : Circle.UniqueCircleProps).

Local Abbreviation toSVG := (Circle._toSVG degreesToRadians cos sin).

(** X15: [_toSVG] writes a [<circle] element exactly when the end angle
    and the start angle differ by a whole number of turns; the element then
    carries the radius as its fifth entry.  Otherwise it writes the eight
    entries of a [<path] arc, which opens at the start point
    [(cos start * radius, sin start * radius)], [start] being the start
    angle through [degreesToRadians]. *)
Theorem toSVG_circle_iff this :
  (Circle.isCircleElement (toSVG this) = true <->
   exists k : Z,
     Circle.endAngle this - Circle.startAngle this = 360 * IZR k) /\
  (Circle.isCircleElement (toSVG this) = true ->
   toSVG this !! 4%nat = Some [Circle.Number (Circle.radius this)]) /\
  (~ (exists k : Z,
        Circle.endAngle this - Circle.startAngle this = 360 * IZR k) ->
   toSVG this !! 0%nat
   = Some (Circle.pathOpening
             (cos (degreesToRadians (Circle.startAngle this))
              * Circle.radius this)
             (sin (degreesToRadians (Circle.startAngle this))
              * Circle.radius this)) /\
   length (toSVG this) = 8%nat).
Proof.
  rewrite <- rem_zero_iff by lra.
  unfold Circle._toSVG. cbv zeta.
  destruct (Req_dec_T _ 0) as [E | E].
  - split; [split; [intros _; exact E | reflexivity] |].
    split; [reflexivity | intros H; contradiction].
  - split; [split; [discriminate | contradiction] |].
    split; [discriminate | intros _; split; reflexivity].
Qed.

(** X16: on an arc, the large-arc flag is ["1"] exactly when the remainder
    of the angle difference by 360 exceeds 180, and ["0"] otherwise; the
    remainder has the sign of the difference, so an end angle below the
    start angle always gives ["0"], and a difference within [(0, 360)]
    gives ["1"] exactly above 180. *)
Theorem toSVG_large_arc this :
  Circle.isCircleElement (toSVG this) = false ->
  let d := Circle.endAngle this - Circle.startAngle this in
  (Circle.largeArcFlag (toSVG this) = Some "1"%string <->
   180 < JS.rem d 360) /\
  (Circle.largeArcFlag (toSVG this) = Some "0"%string <->
   JS.rem d 360 <= 180) /\
  (d < 0 -> Circle.largeArcFlag (toSVG this) = Some "0"%string) /\
  (0 < d < 360 ->
   (Circle.largeArcFlag (toSVG this) = Some "1"%string <-> 180 < d)).
Proof.
  intros Harc d. revert Harc.
  unfold Circle._toSVG. cbv zeta. fold d.
  destruct (Req_dec_T (JS.rem d 360) 0) as [E | E]; [discriminate |].
  intros _. cbn [Circle.largeArcFlag].
  destruct (rem_sign d 360 ltac:(lra)) as [Hpos Hneg].
  destruct (Rgt_dec (JS.rem d 360) 180) as [G | G].
  - split; [split; [intros _; lra | reflexivity] |].
    split; [split; [discriminate | intros; lra] |].
    split.
    + intros Hd. exfalso. destruct Hneg; lra.
    + intros Hd. rewrite rem_below in G by lra.
      split; [intros _; lra | reflexivity].
  - split; [split; [discriminate | intros; lra] |].
    split; [split; [intros _; lra | reflexivity] |].
    split; [reflexivity |].
    intros Hd. rewrite rem_below in G by lra.
    split; [discriminate | intros; lra].
Qed.

(** X17: the markup holds the placeholder [COMMON_PARTS] once, in both
    shapes. *)
Theorem toSVG_common_parts_once this :
  length (List.filter Circle.isCommonParts (toSVG this)) = 1%nat.
Proof.
  unfold Circle._toSVG. cbv zeta.
  destruct (Req_dec_T _ 0); reflexivity.
Qed.

End CircleMarkup.

Lemma toSVG_circle_iff_witness :
  Circle.isCircleElement
    (Circle._toSVG (fun d => d * PI / 180) cos sin Circle.circleDefaultValues)
  = true.
Proof.
  apply (proj1 (toSVG_circle_iff (fun d => d * PI / 180) cos sin
                  Circle.circleDefaultValues)).
  exists 1%Z. simpl. lra.
Defined.

Lemma rem_quarter_turn : JS.rem (90 - 0) 360 = 90.
Proof. rewrite rem_below by lra. lra. Qed.

Lemma toSVG_large_arc_witness :
  Circle.largeArcFlag
    (Circle._toSVG (fun d => d * PI / 180) cos sin (Circle.mkProps 10 0 90))
  = Some "0"%string.
Proof.
  assert (Harc : Circle.isCircleElement
                   (Circle._toSVG (fun d => d * PI / 180) cos sin
                      (Circle.mkProps 10 0 90)) = false).
  { unfold Circle._toSVG. cbv zeta.
    cbn [Circle.endAngle Circle.startAngle]. rewrite rem_quarter_turn.
    destruct (Req_dec_T 90 0); [lra | reflexivity]. }
  apply (proj1 (proj2 (toSVG_large_arc (fun d => d * PI / 180) cos sin
                         (Circle.mkProps 10 0 90) Harc))).
  cbn [Circle.endAngle Circle.startAngle]. rewrite rem_quarter_turn. lra.
Defined.

(** ** Moving a nest of groups *)

Section Nest.

Context {Res : Type}.

Implicit Types (target o g : FabricObject Res) (tr : Transform Res).











End Nest.


